(** * SystemStatsService: aggregation of traffic reports and rolling averages

    A shallow embedding of
    [src/server/app/service/system-stats/system-stats.service.ts].

    Conventions of the embedding.
    - A JavaScript [number] holding a time stamp or a counter is a [Z].  A
      [number] holding a metric (rpm, fpm, an average) is an exact rational
      [Q] in the aggregation and in the query, whose statements do not depend
      on how a sum or a quotient is rounded.  The averaging of [calcDataAvg]
      is given a second time over an arithmetic [Arith], whose instance
      [binary64] has the doubles of the code, with their rounding of [+],
      [/] and [toFixed(3)], and whose instance [rationals] is the exact one.
    - A JavaScript [Map] whose iteration order is observed ([systems]) is an
      association list in insertion order; the maps that are only looked up
      ([hosts], [nodeMap], [linkMap], the time series) are [gmap]s.
    - An object walked with [for ... in] is the list of its own enumerable
      properties, in enumeration order.
    - A string is a [string] of the Standard Library.
    - A [Promise] is a finite tree of calls to the two collaborators (the
      repository and the system-info service); a rejected call skips every
      later [then] callback. *)

From Stdlib Require Import Ascii ZArith QArith Qround Qabs Lqa.
From Stdlib Require PrimFloat SpecFloat FloatOps.
From stdpp Require Import gmap strings list fin_maps.
From Equations Require Import Equations.

Local Open Scope string_scope.
Local Open Scope Z_scope.

(** ** Link keys *)

(** [getLinkKey(source, target)] is the template literal
    [`${ source }-${ target }`]. *)
Definition getLinkKey (source target : string) : string :=
  source +:+ "-" +:+ target.

(** The separator of [getLinkKey]. *)
Definition separator : ascii := "-"%char.

(** [contains c s]: the character [c] occurs in [s]. *)
Fixpoint contains (c : ascii) (s : string) : bool :=
  match s with
  | EmptyString => false
  | String c' s' => if Ascii.eqb c c' then true else contains c s'
  end.

(** ** Data model *)

(** Modelled from the spec: the declaration of [SystemStats]
    ([system-stats.model.ts]) is not among the sources.  The spec's
    [NodeMetric] is [{name, rpm, fpm}], its [LinkMetric] is
    [{source, target, rpm, fpm}] and its [Snapshot] is [{time, nodes, links}];
    these are also the shapes of the object literals that [saveSystemStats]
    builds. *)
Record NodeMetric : Type := mkNode {
  node_name : string;
  node_rpm : Q;
  node_fpm : Q
}.

Record LinkMetric : Type := mkLink {
  link_source : string;
  link_target : string;
  link_rpm : Q;
  link_fpm : Q
}.

Record SystemStats : Type := mkStats {
  time : Z;
  nodes : list NodeMetric;
  links : list LinkMetric
}.

(** Modelled from the spec: the leaf of a report ([SingleServerStatsInput] of
    [system-stats.dto.ts]) is [{rpm?, fpm?}]; the service reads it through a
    variable of type [any], so that either field may be [undefined]
    ([None]). *)
Record SingleServerStatsInput : Type := mkLeaf {
  leaf_rpm : option Q;
  leaf_fpm : option Q
}.

(** The three levels of a report, each an object walked with [for ... in]. *)
Definition ServerStatsInput : Type := list (string * SingleServerStatsInput).
Definition RpcStatsInput : Type := list (string * ServerStatsInput).
Definition SystemStatsInput : Type := list (string * RpcStatsInput).

(** Modelled from the spec: [SystemInfoAttribute] ([system-info.model.ts]) is
    the spec's [DetailRecord], [{time, name, node, source, rpm, fpm}].  The
    service stores [info.rpm] and [info.fpm] in it as they are read, so that
    the two metric fields may be [undefined] ([None]). *)
Record SystemInfoAttribute : Type := mkAttr {
  attr_time : Z;
  attr_name : string;
  attr_node : string;
  attr_source : string;
  attr_rpm : option Q;
  attr_fpm : option Q
}.

(** The accumulators of [saveSystemStats]. *)
Record ServerInfo : Type := mkServer {
  server_rpm : Q;
  server_fpm : Q
}.

Record SystemInfo : Type := mkSystem {
  system_rpm : Q;
  system_fpm : Q;
  hosts : gmap string ServerInfo
}.

(** [v || 0] for a possibly undefined number [v]: the falsy numbers of the
    model are [undefined] and zero. *)
Definition orZero (v : option Q) : Q :=
  match v with
  | Some q => if Qeq_bool q 0 then 0%Q else q
  | None => 0%Q
  end.

(** ** A JavaScript [Map] with string keys, in insertion order *)

Section JsMap.
Context {V : Type}.

Fixpoint jsmap_get (k : string) (m : list (string * V)) : option V :=
  match m with
  | [] => None
  | (k', v) :: m' => if String.eqb k k' then Some v else jsmap_get k m'
  end.

Definition jsmap_has (k : string) (m : list (string * V)) : bool :=
  match jsmap_get k m with Some _ => true | None => false end.

(** [set] keeps the position of a key that is present and appends a new
    key at the end. *)
Fixpoint jsmap_set (k : string) (v : V) (m : list (string * V))
  : list (string * V) :=
  match m with
  | [] => [(k, v)]
  | (k', v') :: m' =>
      if String.eqb k k' then (k', v) :: m' else (k', v') :: jsmap_set k v m'
  end.
End JsMap.

(** ** The aggregation of [saveSystemStats] *)

(** [{ rpm: 0, fpm: 0, hosts: new Map() }] *)
Definition emptySystemInfo : SystemInfo := mkSystem 0 0 ∅.

(** [if (!systems.has(name)) systems.set(name, { rpm: 0, fpm: 0, hosts })] *)
Definition ensureSystem (name : string) (systems : list (string * SystemInfo))
  : list (string * SystemInfo) :=
  if jsmap_has name systems then systems
  else jsmap_set name emptySystemInfo systems.

(** What the loop over the hosts of one [(system, target)] pair updates:
    the object [targetSystem], the link sums [rpm] and [fpm], and the array
    [systemInfos]. *)
Record HostLoop : Type := mkHostLoop {
  targetSystem : SystemInfo;
  rpm : Q;
  fpm : Q;
  hl_systemInfos : list SystemInfoAttribute
}.

(** The body of [for (let host in stats[system][target])].  The bucket of
    [host] is created with zeros when [targetSystem.hosts] does not have it
    and is then updated in place. *)
Definition hostStep (time : Z) (system target : string)
    (st : HostLoop) (entry : string * SingleServerStatsInput) : HostLoop :=
  let '(host, info) := entry in
  let ts := targetSystem st in
  let targetServer := default (mkServer 0 0) (hosts ts !! host) in
  let targetServer' :=
    mkServer (server_rpm targetServer + orZero (leaf_rpm info))
             (server_fpm targetServer + orZero (leaf_fpm info)) in
  mkHostLoop
    (mkSystem (system_rpm ts) (system_fpm ts) (<[host := targetServer']> (hosts ts)))
    (rpm st + orZero (leaf_rpm info))
    (fpm st + orZero (leaf_fpm info))
    (hl_systemInfos st ++
       [mkAttr time target host system (leaf_rpm info) (leaf_fpm info)]).

(** What the two outer loops update: the map [systems], the array
    [systemStats.links] and the array [systemInfos]. *)
Record Fold : Type := mkFold {
  systems : list (string * SystemInfo);
  fold_links : list LinkMetric;
  systemInfos : list SystemInfoAttribute
}.

(** The body of [for (let target in stats[system])].  [targetSystem] is the
    object stored in [systems] under [target]; the host loop and the two
    [+=] after it mutate that object in place, which the model writes back
    with [jsmap_set] (the key is present, so its position is kept). *)
Definition targetStep (time : Z) (system : string)
    (st : Fold) (entry : string * ServerStatsInput) : Fold :=
  let '(target, servers) := entry in
  let systems1 := ensureSystem target (systems st) in
  let ts0 := default emptySystemInfo (jsmap_get target systems1) in
  let hl := foldl (hostStep time system target)
                  (mkHostLoop ts0 0 0 (systemInfos st)) servers in
  let ts := targetSystem hl in
  let ts' := mkSystem (system_rpm ts + rpm hl) (system_fpm ts + fpm hl) (hosts ts) in
  mkFold (jsmap_set target ts' systems1)
         (fold_links st ++ [mkLink system target (rpm hl) (fpm hl)])
         (hl_systemInfos hl).

(** The body of [for (let system in stats)]. *)
Definition systemStep (time : Z)
    (st : Fold) (entry : string * RpcStatsInput) : Fold :=
  let '(system, targets) := entry in
  let st1 := mkFold (ensureSystem system (systems st)) (fold_links st) (systemInfos st) in
  foldl (targetStep time system) st1 targets.

(** [systems.forEach((info, system) => systemStats.nodes.push(...))] *)
Definition nodesOf (systems : list (string * SystemInfo)) : list NodeMetric :=
  map (λ '(system, info), mkNode system (system_rpm info) (system_fpm info)) systems.

(** The synchronous part of [saveSystemStats]: the snapshot [systemStats] and
    the detail records [systemInfos] handed to the two collaborators. *)
Definition aggregate (t : Z) (stats : SystemStatsInput)
  : SystemStats * list SystemInfoAttribute :=
  let st := foldl (systemStep t) (mkFold [] [] []) stats in
  (mkStats t (nodesOf (systems st)) (fold_links st), systemInfos st).

(** ** Promises over the two collaborators *)

(** A failed promise carries either the failure of a collaborator or the
    [TypeError] of the callback itself (a property read on [undefined]). *)
Inductive Error : Type :=
| StoreError (reason : string)
| TypeError.

(** The calls the service makes on [systemStatsRepository] and on
    [systemInfoService]. *)
Inductive Call : Type :=
| repo_getLatestStatsTime
| repo_getSystemStats (begin end_ : Z)
| repo_saveSystemStats (systemStats : SystemStats)
| info_saveSystemInfo (systemInfos : list SystemInfoAttribute).

(** What the promise returned by a call is fulfilled with;
    [getLatestStatsTime] yields [null] ([None]) for an empty store. *)
Definition Response (c : Call) : Type :=
  match c with
  | repo_getLatestStatsTime => option Z
  | repo_getSystemStats _ _ => list SystemStats
  | repo_saveSystemStats _ => unit
  | info_saveSystemInfo _ => unit
  end.

Inductive Promise (A : Type) : Type :=
| Resolved (a : A)
| Rejected (e : Error)
| Await (c : Call) (k : Response c → Promise A).
Arguments Resolved {A} a.
Arguments Rejected {A} e.
Arguments Await {A} c k.

(** The promise returned by a collaborator. *)
Definition call (c : Call) : Promise (Response c) := Await c Resolved.

(** [p.then(f)]: [f] runs on the value of [p]; a rejection of [p] skips
    [f]. *)
Fixpoint andThen {A B : Type} (p : Promise A) (f : A → Promise B) : Promise B :=
  match p with
  | Resolved a => f a
  | Rejected e => Rejected e
  | Await c k => Await c (λ x, andThen (k x) f)
  end.

(** How a promise settles. *)
Inductive Outcome (A : Type) : Type :=
| Fulfilled (a : A)
| Failed (e : Error).
Arguments Fulfilled {A} a.
Arguments Failed {A} e.

Section Run.
(** The state of the outside world and the behaviour of the collaborators
    on it. *)
Context {W : Type}.
Variable handle : ∀ c : Call, W → W * Outcome (Response c).

(** Running a promise: the world it leaves, the calls it made in order,
    and how it settled. *)
Fixpoint run {A : Type} (p : Promise A) (w : W) : W * list Call * Outcome A :=
  match p with
  | Resolved a => (w, [], Fulfilled a)
  | Rejected e => (w, [], Failed e)
  | Await c k =>
      match handle c w with
      | (w1, Failed e) => (w1, [c], Failed e)
      | (w1, Fulfilled x) =>
          let '(w2, calls, o) := run (k x) w1 in (w2, c :: calls, o)
      end
  end.
End Run.

(** ** [saveSystemStats] *)

Definition saveSystemStats (t : Z) (stats : SystemStatsInput) : Promise unit :=
  let '(systemStats, systemInfos) := aggregate t stats in
  andThen (call (repo_saveSystemStats systemStats))
          (λ _, call (info_saveSystemInfo systemInfos)).

(** ** Averages *)

(** [parseFloat(x.toFixed(3))].  [toFixed] works on the absolute value and
    puts the sign back; below [10^21] it takes the integer [n] for which
    [n / 1000] is nearest to the value, the larger one of two; from [10^21]
    on it prints the number itself. *)
Definition toFixed3 (x : Q) : Q :=
  let a := Qabs x in
  let r := if Qle_bool (inject_Z (10 ^ 21)) a then a
           else (inject_Z (Qfloor (a * 1000 + (1 # 2))) / 1000)%Q in
  Qred (if Qle_bool 0 x then r else - r)%Q.

(** The loop [for (let time = begin; time <= end; time += 60)] of
    [calcDataAvg], with its two accumulators. *)
Equations? calcDataAvg_loop (data : gmap Z Q) (end_ : Z)
    (time : Z) (sum : Q) (count : Z) : Q * Z
    by wf (Z.to_nat (end_ - time + 1)) lt :=
  calcDataAvg_loop data end_ time sum count with decide (time ≤ end_)%Z => {
    | left _ with data !! time => {
        | Some v => calcDataAvg_loop data end_ (time + 60) (sum + v)%Q (count + 1);
        | None => calcDataAvg_loop data end_ (time + 60) sum count };
    | right _ => (sum, count) }.
Proof. all: lia. Qed.

Definition calcDataAvg (data : gmap Z Q) (begin end_ : Z) : Q :=
  let '(sum, count) := calcDataAvg_loop data end_ begin 0%Q 0 in
  if count =? 0 then 0%Q else toFixed3 (sum / inject_Z count)%Q.

(** ** [getSystemStats] *)

(** Modelled from the spec: [SystemStatsDto] ([system-stats.dto.ts]) is the
    spec's [DashboardResult]: a time, one [(name, rpm-triple, fpm-triple)] per
    node and one [(source, target, rpm-triple, fpm-triple)] per link, as the
    arrays [[ name, rpm, fpm ]] and [[ source, target, rpm, fpm ]] that
    [getSystemStats] pushes. *)
Record SystemStatsDto : Type := mkDto {
  dto_time : Z;
  dto_nodes : list (string * list Q * list Q);
  dto_links : list (string * string * list Q * list Q)
}.

(** [{ time: 0, nodes: [ ], links: [ ] }] *)
Definition result : SystemStatsDto := mkDto 0 [] [].

(** [PropertyLookupMap]: from a property name to a time series. *)
Abbreviation PropertyLookupMap := (gmap string (gmap Z Q)).

(** One round of the two [forEach] bodies on a lookup map [m]:
    [if (!m.has(key)) m.set(key, { "rpm": new Map(), "fpm": new Map() })],
    then [m.get(key)["rpm"].set(time, rpm)] and
    [m.get(key)["fpm"].set(time, fpm)].  The entry of [key] and its two
    series exist when the two updates run, so [alter] finds them. *)
Definition recordSample (key : string) (t : Z) (rpm fpm : Q)
    (m : gmap string PropertyLookupMap) : gmap string PropertyLookupMap :=
  let m1 := match m !! key with
            | Some _ => m
            | None => <[key := <["rpm" := ∅]> (<["fpm" := ∅]> ∅)]> m
            end in
  let m2 := alter (alter (<[t := rpm]>) "rpm") key m1 in
  alter (alter (<[t := fpm]>) "fpm") key m2.

(** The body of [stats.forEach((stat) => ...)] on [(nodeMap, linkMap)]. *)
Definition addSnapshot
    (maps : gmap string PropertyLookupMap * gmap string PropertyLookupMap)
    (stat : SystemStats)
  : gmap string PropertyLookupMap * gmap string PropertyLookupMap :=
  let t := time stat in
  (foldl (λ nodeMap node,
            recordSample (node_name node) t (node_rpm node) (node_fpm node) nodeMap)
         maps.1 (nodes stat),
   foldl (λ linkMap link,
            recordSample (getLinkKey (link_source link) (link_target link)) t
                         (link_rpm link) (link_fpm link) linkMap)
         maps.2 (links stat)).

(** [calcNodeAvg(node, property, minutes)], with [holder.get("time")] as
    [latest]; [None] is the [TypeError] of a lookup that finds nothing. *)
Definition calcNodeAvg (nodeMap : gmap string PropertyLookupMap) (latest : Z)
    (node property : string) (minutes : Z) : option Q :=
  let end_ := latest in
  let begin := end_ - minutes * 60 in
  lookup ← nodeMap !! node;
  data ← lookup !! property;
  Some (calcDataAvg data begin end_).

(** [calcLinkAvg(source, target, property, minutes)] *)
Definition calcLinkAvg (linkMap : gmap string PropertyLookupMap) (latest : Z)
    (source target property : string) (minutes : Z) : option Q :=
  let end_ := latest in
  let begin := end_ - minutes * 60 in
  let key := getLinkKey source target in
  lookup ← linkMap !! key;
  data ← lookup !! property;
  Some (calcDataAvg data begin end_).

(** The body of [for (let node of latestStats.nodes)]. *)
Definition nodeEntry (nodeMap : gmap string PropertyLookupMap) (latest : Z)
    (node : NodeMetric) : option (string * list Q * list Q) :=
  let name := node_name node in
  rpm5 ← calcNodeAvg nodeMap latest name "rpm" 5;
  rpm15 ← calcNodeAvg nodeMap latest name "rpm" 15;
  fpm5 ← calcNodeAvg nodeMap latest name "fpm" 5;
  fpm15 ← calcNodeAvg nodeMap latest name "fpm" 15;
  Some (name, [node_rpm node; rpm5; rpm15], [node_fpm node; fpm5; fpm15]).

(** The body of [for (let link of latestStats.links)]. *)
Definition linkEntry (linkMap : gmap string PropertyLookupMap) (latest : Z)
    (link : LinkMetric) : option (string * string * list Q * list Q) :=
  let source := link_source link in
  let target := link_target link in
  rpm5 ← calcLinkAvg linkMap latest source target "rpm" 5;
  rpm15 ← calcLinkAvg linkMap latest source target "rpm" 15;
  fpm5 ← calcLinkAvg linkMap latest source target "fpm" 5;
  fpm15 ← calcLinkAvg linkMap latest source target "fpm" 15;
  Some (source, target, [link_rpm link; rpm5; rpm15], [link_fpm link; fpm5; fpm15]).

(** The second [then] callback, for the time [latest] that the first one
    stored in [holder]. *)
Definition onStats (latest : Z) (stats : list SystemStats) : Promise SystemStatsDto :=
  match stats with
  | [] => Resolved result
  | latestStats :: _ =>
      let '(nodeMap, linkMap) := foldl addSnapshot (∅, ∅) stats in
      match mapM (nodeEntry nodeMap latest) (nodes latestStats),
            mapM (linkEntry linkMap latest) (links latestStats) with
      | Some ns, Some ls => Resolved (mkDto latest ns ls)
      | _, _ => Rejected TypeError
      end
  end.

(** [getSystemStats()].  When the latest time is [null] the first callback
    answers [[ ]] without a call, for which the second callback answers
    [result] at once; otherwise [holder.get("time")] in the second callback
    is the time the first one has stored. *)
Definition getSystemStats : Promise SystemStatsDto :=
  andThen (call repo_getLatestStatsTime) (λ time,
    match time with
    | None => Resolved result
    | Some t => andThen (call (repo_getSystemStats (t - 14 * 60) t)) (onStats t)
    end).

(** ** An in-memory store *)

(** Modelled from the spec: the Snapshot Store and the Detail Recorder
    ([system-stats.repo.ts], [system-info.service.ts]) are not among the
    sources.  The store keeps at most one snapshot per time, answers a range
    query most recent first, and reports the latest time or none; the
    recorder keeps the rows it is given.  Either write can be made to
    fail. *)
Record Store : Type := mkStore {
  snapshots : list SystemStats;
  details : list SystemInfoAttribute;
  snapshotWriteFails : bool;
  detailWriteFails : bool
}.

(** The snapshots are kept most recent first. *)
Fixpoint insertByTime (s : SystemStats) (l : list SystemStats) : list SystemStats :=
  match l with
  | [] => [s]
  | s' :: l' => if time s' <=? time s then s :: l else s' :: insertByTime s l'
  end.

Definition saveSnapshot (s : SystemStats) (l : list SystemStats) : list SystemStats :=
  insertByTime s (filter (λ s', time s' ≠ time s) l).

Definition latestTime (l : list SystemStats) : option Z :=
  time <$> head l.

Definition rangeQuery (begin end_ : Z) (l : list SystemStats) : list SystemStats :=
  filter (λ s, begin ≤ time s ≤ end_) l.

Definition memory (c : Call) (w : Store) : Store * Outcome (Response c) :=
  match c with
  | repo_getLatestStatsTime => (w, Fulfilled (latestTime (snapshots w)))
  | repo_getSystemStats begin end_ =>
      (w, Fulfilled (rangeQuery begin end_ (snapshots w)))
  | repo_saveSystemStats s =>
      if snapshotWriteFails w then (w, Failed (StoreError "snapshot"))
      else (mkStore (saveSnapshot s (snapshots w))
                    (details w) (snapshotWriteFails w) (detailWriteFails w),
            Fulfilled ())
  | info_saveSystemInfo infos =>
      if detailWriteFails w then (w, Failed (StoreError "detail"))
      else (mkStore (snapshots w) (details w ++ infos)
                    (snapshotWriteFails w) (detailWriteFails w),
            Fulfilled ())
  end.

(** A store that holds nothing and whose writes succeed. *)
Definition emptyStore : Store := mkStore [] [] false false.

(** ** Scenarios *)

(** The report [{A: {B: {h1: {rpm: 10, fpm: 1}}}}]. *)
Definition reportAB : SystemStatsInput :=
  [("A", [("B", [("h1", mkLeaf (Some 10%Q) (Some 1%Q))])])].

(** The snapshot [{time: 600, nodes: [{A,0,0}, {B,10,1}], links: [{A,B,10,1}]}]. *)
Definition snapshotAB : SystemStats :=
  mkStats 600 [mkNode "A" 0 0; mkNode "B" 10 1] [mkLink "A" "B" 10 1].

(** The detail record
    [{time: 600, name: B, node: h1, source: A, rpm: 10, fpm: 1}]. *)
Definition detailAB : SystemInfoAttribute :=
  mkAttr 600 "B" "h1" "A" (Some 10%Q) (Some 1%Q).

(** The report [{A: {B: {h1: {rpm: 10}}}}], whose leaf has no [fpm]. *)
Definition reportNoFpm : SystemStatsInput :=
  [("A", [("B", [("h1", mkLeaf (Some 10%Q) None)])])].

(** A repository whose latest time is ahead of what its range query
    returns: the latest time is 600 and every range is empty. *)
Definition staleRepository (c : Call) (w : unit) : unit * Outcome (Response c) :=
  match c with
  | repo_getLatestStatsTime => (w, Fulfilled (Some 600))
  | repo_getSystemStats _ _ => (w, Fulfilled [])
  | repo_saveSystemStats _ => (w, Fulfilled ())
  | info_saveSystemInfo _ => (w, Fulfilled ())
  end.

(** ** Sums over a snapshot *)

(** The sum of a list of numbers, added from left to right, from zero. *)
Definition Qsum (l : list Q) : Q := foldl Qplus 0%Q l.

(** The links of a list whose target is [name]. *)
Definition linksTo (name : string) (l : list LinkMetric) : list LinkMetric :=
  filter (λ link, link_target link = name) l.

(** ** The window of an average, in the spec's words *)

(** The time stamps [begin, begin + 60, ..., end] of the horizon of
    [minutes] minutes that ends at [latest]: [begin = latest - minutes * 60]
    and [end = latest]. *)
Definition horizonTimes (latest minutes : Z) : list Z :=
  (λ k, latest - minutes * 60 + 60 * k) <$> seqZ 0 (minutes + 1).

(** The values of a series at those of the given time stamps that are
    present in it. *)
Definition samples (data : gmap Z Q) (times : list Z) : list Q :=
  omap (λ t, data !! t) times.

(** A series whose only sample lies between two scanned time stamps. *)
Definition seriesOffGrid : gmap Z Q := {[ 30 := 5%Q ]}.

(** Two snapshots of the link from [A] to [B], taken at times 0 and 60, in
    a store. *)
Definition snapshotAt0 : SystemStats :=
  mkStats 0 [mkNode "A" 0 0; mkNode "B" 10 1] [mkLink "A" "B" 10 1].

Definition snapshotAt60 : SystemStats :=
  mkStats 60 [mkNode "A" 0 0; mkNode "B" 20 1] [mkLink "A" "B" 20 1].

Definition storeOfTwo : Store :=
  mkStore [snapshotAt60; snapshotAt0] [] false false.

(** ** Auxiliary notions of the proofs *)

(** The invariant of the two outer loops: the keys of [systems] are distinct,
    every link recorded so far has its target among them, and the totals of
    every system are the sums over the links recorded so far that point to
    it. *)
Definition accounted (st : Fold) : Prop :=
  NoDup (systems st).*1 ∧
  (∀ link, link ∈ fold_links st → link_target link ∈ (systems st).*1) ∧
  (∀ name info, jsmap_get name (systems st) = Some info →
     system_rpm info = Qsum (link_rpm <$> linksTo name (fold_links st)) ∧
     system_fpm info = Qsum (link_fpm <$> linksTo name (fold_links st))).

(** The time stamps that [n] rounds of the loop visit, from [time] on. *)
Fixpoint visited (time : Z) (n : nat) : list Z :=
  match n with
  | O => []
  | S n' => time :: visited (time + 60) n'
  end.

(** One round of the loop on its accumulators. *)
Definition scanStep (data : gmap Z Q) (acc : Q * Z) (t : Z) : Q * Z :=
  match data !! t with
  | Some v => ((acc.1 + v)%Q, acc.2 + 1)
  | None => acc
  end.

(** Every entry of a lookup map carries both series. *)
Definition complete (m : gmap string PropertyLookupMap) : Prop :=
  ∀ key lookup, m !! key = Some lookup →
    is_Some (lookup !! "rpm") ∧ is_Some (lookup !! "fpm").

(** A node (a link) of the latest snapshot as it is reported: its name (its
    source and target) and two triples, each with the stored value first. *)
Definition nodeReported (node : NodeMetric) (entry : string * list Q * list Q)
  : Prop :=
  ∃ rpm5 rpm15 fpm5 fpm15,
    entry = (node_name node, [node_rpm node; rpm5; rpm15],
                             [node_fpm node; fpm5; fpm15]).

Definition linkReported (link : LinkMetric)
    (entry : string * string * list Q * list Q) : Prop :=
  ∃ rpm5 rpm15 fpm5 fpm15,
    entry = (link_source link, link_target link,
             [link_rpm link; rpm5; rpm15], [link_fpm link; fpm5; fpm15]).

(** ** A report read level by level *)

(** The detail record of one leaf. *)
Definition detailOf (t : Z) (system target : string)
    (entry : string * SingleServerStatsInput) : SystemInfoAttribute :=
  mkAttr t target entry.1 system (leaf_rpm entry.2) (leaf_fpm entry.2).

(** The detail records of a report: one per leaf, in the order of the
    walk. *)
Definition detailsOf (t : Z) (stats : SystemStatsInput)
  : list SystemInfoAttribute :=
  '(system, targets) ← stats;
  '(target, servers) ← targets;
  detailOf t system target <$> servers.

(** The link of one [(system, target)] pair: the sums, from left to right,
    of the [rpm || 0] and of the [fpm || 0] of its hosts. *)
Definition linkOf (system : string) (entry : string * ServerStatsInput)
  : LinkMetric :=
  mkLink system entry.1
         (Qsum ((λ e, orZero (leaf_rpm e.2)) <$> entry.2))
         (Qsum ((λ e, orZero (leaf_fpm e.2)) <$> entry.2)).

(** The links of a report: one per pair, in the order of the walk. *)
Definition linksOf (stats : SystemStatsInput) : list LinkMetric :=
  '(system, targets) ← stats; linkOf system <$> targets.

(** The systems that a report mentions, in the order of the walk: each
    system, followed by its targets. *)
Definition mentions (stats : SystemStatsInput) : list string :=
  '(system, targets) ← stats; system :: targets.*1.

(** A list without its repetitions: every element is kept where it first
    occurs. *)
Fixpoint firstOccurrences (l : list string) : list string :=
  match l with
  | [] => []
  | x :: l' => x :: filter (λ y, y ≠ x) (firstOccurrences l')
  end.

(** The keys of [systems] after [ensureSystem]. *)
Definition keysAdd (keys : list string) (x : string) : list string :=
  if decide (x ∈ keys) then keys else keys ++ [x].

(** A leaf with [rpm || 0] and [fpm || 0] in the place of its two fields,
    and a report with such leaves throughout. *)
Definition withDefaults (info : SingleServerStatsInput) : SingleServerStatsInput :=
  mkLeaf (Some (orZero (leaf_rpm info))) (Some (orZero (leaf_fpm info))).

Definition serversWithDefaults (servers : ServerStatsInput) : ServerStatsInput :=
  map (λ e : string * SingleServerStatsInput, (e.1, withDefaults e.2)) servers.

Definition targetsWithDefaults (targets : RpcStatsInput) : RpcStatsInput :=
  map (λ e : string * ServerStatsInput, (e.1, serversWithDefaults e.2)) targets.

Definition reportWithDefaults (stats : SystemStatsInput) : SystemStatsInput :=
  map (λ e : string * RpcStatsInput, (e.1, targetsWithDefaults e.2)) stats.

(** The series [{0: 1, 60: 2}] with one more sample, between two scanned
    time stamps. *)
Definition seriesWithStray : gmap Z Q := <[30 := 100%Q]> (<[0 := 1%Q]> {[ 60 := 2%Q ]}).

(** A repository that answers the two reads as it is told to, whatever the
    arguments. *)
Definition scriptedRepository (latest : Outcome (option Z))
    (window : Outcome (list SystemStats)) (c : Call) (w : unit)
  : unit * Outcome (Response c) :=
  match c with
  | repo_getLatestStatsTime => (w, latest)
  | repo_getSystemStats _ _ => (w, window)
  | repo_saveSystemStats _ => (w, Fulfilled ())
  | info_saveSystemInfo _ => (w, Fulfilled ())
  end.

(** The sample that a lookup map holds under [key] for [property] at time
    [τ]: [m.get(key)[property].get(τ)], or [None] when one of the three
    lookups finds nothing. *)
Definition sampleAt (m : gmap string PropertyLookupMap)
    (key property : string) (τ : Z) : option Q :=
  lookup ← m !! key; data ← lookup !! property; data !! τ.

(** A snapshot with two links whose keys are the same string ["a-b-c"]. *)
Definition snapshotOfClash : SystemStats :=
  mkStats 0 [] [mkLink "a-b" "c" 1 0; mkLink "a" "b-c" 2 0].

(** The entry of a node whose two averages are its stored values put
    through [toFixed(3)]. *)
Definition steadyEntry (node : NodeMetric) : string * list Q * list Q :=
  (node_name node,
   [node_rpm node; toFixed3 (node_rpm node); toFixed3 (node_rpm node)],
   [node_fpm node; toFixed3 (node_fpm node); toFixed3 (node_fpm node)]).

(** A field of a leaf that is absent or holds a count: a non-negative
    integer. *)
Definition isCount (v : option Q) : Prop :=
  ∀ q, v = Some q → ∃ z : Z, 0 ≤ z ∧ q = inject_Z z.

(** ** The averages in the arithmetic of the code *)

(** The operations that [calcDataAvg] performs on numbers: the literal [0],
    [+], [/], the counter as a number, and [parseFloat(x.toFixed(3))]. *)
Record Arith : Type := mkArith {
  num : Type;
  num_zero : num;
  num_add : num → num → num;
  num_div : num → num → num;
  num_ofInt : Z → num;
  num_toFixed3 : num → num
}.

(** The exact rationals, as [calcDataAvg] above has them. *)
Definition rationals : Arith := mkArith Q 0%Q Qplus Qdiv inject_Z toFixed3.

(** The value of the positive finite double [m * 2^e]. *)
Definition dyadic (m : positive) (e : Z) : Q :=
  (inject_Z (Z.pos m) * Qpower 2 e)%Q.

(** [parseFloat] of the decimal [n / 1000], for an integer [n >= 0]: the
    double nearest to it, the even one of two. *)
Definition thousandths (n : Z) : PrimFloat.float :=
  match n with
  | Z.pos p =>
      let '(mz, ez, lz) :=
        SpecFloat.SFdiv_core_binary FloatOps.prec FloatOps.emax (Z.pos p) 0 1000 0 in
      FloatOps.SF2Prim
        (SpecFloat.binary_round_aux FloatOps.prec FloatOps.emax false mz ez lz)
  | _ => PrimFloat.zero
  end.

(** [parseFloat(x.toFixed(3))] on a double.  [toFixed] prints NaN, the
    infinities and the numbers from [10^21] on as [ToString] does, which
    [parseFloat] reads back; it prints a zero of either sign as ["0.000"];
    otherwise it takes the integer [n] for which [n / 1000] is nearest to the
    exact absolute value, the larger one of two, and prints [n / 1000] with
    the sign. *)
Definition toFixed3F (x : PrimFloat.float) : PrimFloat.float :=
  match FloatOps.Prim2SF x with
  | SpecFloat.S754_finite s m e =>
      let a := dyadic m e in
      if Qle_bool (inject_Z (10 ^ 21)) a then x
      else
        let r := thousandths (Qfloor (a * 1000 + (1 # 2))) in
        if s then PrimFloat.opp r else r
  | SpecFloat.S754_zero _ => PrimFloat.zero
  | _ => x
  end.

(** An integer as a double: the nearest one, which is the integer itself up
    to [2^53]. *)
Definition ofZ (z : Z) : PrimFloat.float :=
  FloatOps.SF2Prim
    (SpecFloat.binary_normalize FloatOps.prec FloatOps.emax z 0 false).

(** The binary64 numbers of JavaScript, the arithmetic of the code. *)
Definition binary64 : Arith :=
  mkArith PrimFloat.float PrimFloat.zero PrimFloat.add PrimFloat.div ofZ toFixed3F.

(** [calcDataAvg] in a given arithmetic: the loop
    [for (let time = begin; time <= end; time += 60)] with its accumulators
    [sum] and [count], then [if (count === 0) return 0] and
    [return parseFloat((sum / count).toFixed(3))]. *)
Equations? calcDataAvgIn_loop (N : Arith) (data : gmap Z (num N)) (end_ : Z)
    (time : Z) (sum : num N) (count : Z) : num N * Z
    by wf (Z.to_nat (end_ - time + 1)) lt :=
  calcDataAvgIn_loop N data end_ time sum count with decide (time ≤ end_)%Z => {
    | left _ with data !! time => {
        | Some v =>
            calcDataAvgIn_loop N data end_ (time + 60) (num_add N sum v) (count + 1);
        | None => calcDataAvgIn_loop N data end_ (time + 60) sum count };
    | right _ => (sum, count) }.
Proof. all: lia. Qed.

Definition calcDataAvgIn (N : Arith) (data : gmap Z (num N)) (begin end_ : Z)
  : num N :=
  let '(sum, count) := calcDataAvgIn_loop N data end_ begin (num_zero N) 0 in
  if count =? 0 then num_zero N
  else num_toFixed3 N (num_div N sum (num_ofInt N count)).






(** The series [{0: 0.1875, 60: 0, 120: 0, 180: 0, 240: 0}] of doubles. *)
Definition seriesOfTie : gmap Z PrimFloat.float :=
  <[0 := PrimFloat.div (ofZ 3) (ofZ 16)]>
    (<[60 := ofZ 0]> (<[120 := ofZ 0]> (<[180 := ofZ 0]> {[ 240 := ofZ 0 ]}))).

(** * Properties *)

(** ** Link keys *)

Lemma contains_cons c d s :
  contains c (String d s) = if Ascii.eqb c d then true else contains c s.
Proof. reflexivity. Qed.

Lemma getLinkKey_cons c source target :
  getLinkKey (String c source) target = String c (getLinkKey source target).
Proof. reflexivity. Qed.

(** Two keys whose source parts are free of the separator agree only when
    both components agree. *)
Lemma getLinkKey_inj s1 : ∀ s2 t1 t2,
  contains separator s1 = false →
  contains separator s2 = false →
  getLinkKey s1 t1 = getLinkKey s2 t2 →
  s1 = s2 ∧ t1 = t2.
Proof.
  induction s1 as [|c s1 IH]; intros [|d s2] t1 t2 H1 H2 Heq.
  - injection Heq as Heq. by split.
  - exfalso. injection Heq as Hd _. subst d. by cbv in H2.
  - exfalso. injection Heq as Hc _. subst c. by cbv in H1.
  - rewrite !getLinkKey_cons in Heq. injection Heq as -> Heq.
    rewrite contains_cons in H1, H2.
    destruct (Ascii.eqb separator d); [done|].
    by destruct (IH s2 t1 t2 H1 H2 Heq) as [-> ->].
Qed.

(** C4, as stated, fails: the identifiers ["x"] and ["x-x"] differ, yet the
    two directed keys are the same string ["x-x-x"]. *)
Lemma getLinkKey_direction_collision :
  ¬ (∀ a b : string, a ≠ b → getLinkKey a b ≠ getLinkKey b a).
Proof.
  intros H. apply (H "x" "x-x"); [discriminate | reflexivity].
Qed.

(** C4, amended: for identifiers that do not contain the separator ["-"],
    [getLinkKey a b] differs from [getLinkKey b a] whenever [a ≠ b]. *)
Theorem getLinkKey_directional (a b : string) :
  contains separator a = false →
  contains separator b = false →
  a ≠ b →
  getLinkKey a b ≠ getLinkKey b a.
Proof.
  intros Ha Hb Hne Heq.
  destruct (getLinkKey_inj a b b a Ha Hb Heq) as [-> _]. done.
Qed.

Lemma getLinkKey_directional_witness :
  contains separator "A" = false ∧ contains separator "B" = false ∧
  "A" ≠ "B" ∧ getLinkKey "A" "B" ≠ getLinkKey "B" "A".
Proof.
  split; [reflexivity|]. split; [reflexivity|]. split; [discriminate|].
  apply getLinkKey_directional; [reflexivity | reflexivity | discriminate].
Defined.

(** ** The two writes of [saveSystemStats] *)

(** What running [saveSystemStats] amounts to, whatever the collaborators
    do. *)
Lemma run_saveSystemStats {W : Type}
    (handle : ∀ c : Call, W → W * Outcome (Response c))
    (t : Z) (stats : SystemStatsInput) (w : W) :
  run handle (saveSystemStats t stats) w =
  match handle (repo_saveSystemStats (aggregate t stats).1) w with
  | (w1, Failed e) => (w1, [repo_saveSystemStats (aggregate t stats).1], Failed e)
  | (w1, Fulfilled _) =>
      match handle (info_saveSystemInfo (aggregate t stats).2) w1 with
      | (w2, o) =>
          (w2, [repo_saveSystemStats (aggregate t stats).1;
                info_saveSystemInfo (aggregate t stats).2], o)
      end
  end.
Proof.
  unfold saveSystemStats. destruct (aggregate t stats) as [systemStats infos].
  simpl. destruct (handle (repo_saveSystemStats systemStats) w) as [w1 [[]|e]]; [|done].
  by destruct (handle (info_saveSystemInfo infos) w1) as [w2 [[]|e]].
Qed.

(** C1: the report [{A: {B: {h1: {rpm: 10, fpm: 1}}}}] at time 600 is folded
    into exactly the snapshot
    [{time: 600, nodes: [{A,0,0}, {B,10,1}], links: [{A,B,10,1}]}] and the one
    detail record [{time: 600, name: B, node: h1, source: A, rpm: 10, fpm: 1}];
    whatever the collaborators do, the calls made are the write of that
    snapshot, followed or not by the write of that record; and on the empty
    in-memory store both are persisted and nothing else. *)
Theorem saveSystemStats_end_to_end :
  aggregate 600 reportAB = (snapshotAB, [detailAB]) ∧
  (∀ (W : Type) (handle : ∀ c : Call, W → W * Outcome (Response c)) (w : W),
     let calls := (run handle (saveSystemStats 600 reportAB) w).1.2 in
     calls = [repo_saveSystemStats snapshotAB] ∨
     calls = [repo_saveSystemStats snapshotAB; info_saveSystemInfo [detailAB]]) ∧
  run memory (saveSystemStats 600 reportAB) emptyStore =
    (mkStore [snapshotAB] [detailAB] false false,
     [repo_saveSystemStats snapshotAB; info_saveSystemInfo [detailAB]],
     Fulfilled ()).
Proof.
  assert (Hagg : aggregate 600 reportAB = (snapshotAB, [detailAB])) by reflexivity.
  split; [exact Hagg|]. split; [|reflexivity].
  intros W handle w calls. subst calls.
  rewrite run_saveSystemStats, Hagg. simpl.
  destruct (handle (repo_saveSystemStats snapshotAB) w) as [w1 [[]|e]]; [|by left].
  destruct (handle (info_saveSystemInfo [detailAB]) w1) as [w2 o]. by right.
Qed.

(** C9: the snapshot write comes first; when it fails, the detail write is
    not attempted and the failure is the result; when it succeeds, the detail
    write is attempted on the world that the snapshot write has left, its
    outcome is the result of the whole, and no further call (so no rollback)
    follows it.  Hence the result is a success exactly when both writes
    succeed. *)
Theorem saveSystemStats_write_order {W : Type}
    (handle : ∀ c : Call, W → W * Outcome (Response c))
    (t : Z) (stats : SystemStatsInput) (w : W) :
  let snapshotWrite := repo_saveSystemStats (aggregate t stats).1 in
  let detailWrite := info_saveSystemInfo (aggregate t stats).2 in
  let r := run handle (saveSystemStats t stats) w in
  (∀ w1 e, handle snapshotWrite w = (w1, Failed e) →
     r = (w1, [snapshotWrite], Failed e)) ∧
  (∀ w1 u w2 o, handle snapshotWrite w = (w1, Fulfilled u) →
     handle detailWrite w1 = (w2, o) →
     r = (w2, [snapshotWrite; detailWrite], o)) ∧
  ((∃ u, r.2 = Fulfilled u) ↔
   (∃ w1 u w2 u', handle snapshotWrite w = (w1, Fulfilled u) ∧
                  handle detailWrite w1 = (w2, Fulfilled u'))).
Proof.
  intros snapshotWrite detailWrite r. subst r.
  rewrite run_saveSystemStats. fold snapshotWrite detailWrite.
  split; [|split].
  - intros w1 e ->. done.
  - intros w1 u w2 o -> ->. done.
  - destruct (handle snapshotWrite w) as [w1 [u|e]] eqn:H1.
    + destruct (handle detailWrite w1) as [w2 [u'|e]] eqn:H2; simpl.
      * split; [|by eauto]. intros _. exists w1, u, w2, u'. by rewrite H2.
      * split; [by intros [? ?]|]. intros (w1' & u1 & w2' & u2 & Ha & Hb).
        injection Ha as <- _. rewrite H2 in Hb. done.
    + simpl. split; [by intros [? ?]|]. by intros (? & ? & ? & ? & ? & _).
Qed.

(** On the in-memory store: a failing snapshot write leaves the store as it
    was and makes one call; a failing detail write leaves the snapshot
    stored. *)
Lemma saveSystemStats_write_order_witness :
  run memory (saveSystemStats 600 reportAB) (mkStore [] [] true false) =
    (mkStore [] [] true false, [repo_saveSystemStats snapshotAB],
     Failed (StoreError "snapshot")) ∧
  run memory (saveSystemStats 600 reportAB) (mkStore [] [] false true) =
    (mkStore [snapshotAB] [] false true,
     [repo_saveSystemStats snapshotAB; info_saveSystemInfo [detailAB]],
     Failed (StoreError "detail")).
Proof.
  split.
  - apply (proj1 (saveSystemStats_write_order memory 600 reportAB
                    (mkStore [] [] true false))).
    reflexivity.
  - apply (proj1 (proj2 (saveSystemStats_write_order memory 600 reportAB
                           (mkStore [] [] false true)))
             (mkStore [snapshotAB] [] false true) ()); reflexivity.
Defined.

(** C10: for every time [t] the empty report is folded into the snapshot
    [{time: t, nodes: [], links: []}] and an empty list of detail records;
    the first call is always the write of that snapshot, and when it succeeds
    the write of the empty list follows. *)
Theorem saveSystemStats_empty_report {W : Type}
    (handle : ∀ c : Call, W → W * Outcome (Response c)) (t : Z) (w : W) :
  aggregate t [] = (mkStats t [] [], []) ∧
  (∀ w1 e, handle (repo_saveSystemStats (mkStats t [] [])) w = (w1, Failed e) →
     run handle (saveSystemStats t []) w =
       (w1, [repo_saveSystemStats (mkStats t [] [])], Failed e)) ∧
  (∀ w1 u w2 o,
     handle (repo_saveSystemStats (mkStats t [] [])) w = (w1, Fulfilled u) →
     handle (info_saveSystemInfo []) w1 = (w2, o) →
     run handle (saveSystemStats t []) w =
       (w2, [repo_saveSystemStats (mkStats t [] []); info_saveSystemInfo []], o)).
Proof.
  split; [reflexivity|]. rewrite run_saveSystemStats. simpl.
  split.
  - by intros w1 e ->.
  - by intros w1 u w2 o -> ->.
Qed.

Lemma saveSystemStats_empty_report_witness :
  run memory (saveSystemStats 600 []) emptyStore =
    (mkStore [mkStats 600 [] []] [] false false,
     [repo_saveSystemStats (mkStats 600 [] []); info_saveSystemInfo []],
     Fulfilled ()).
Proof.
  apply (proj2 (proj2 (saveSystemStats_empty_report memory 600 emptyStore))
           (mkStore [mkStats 600 [] []] [] false false) ()); reflexivity.
Defined.

(** ** The insertion-ordered map *)

Section JsMapFacts.
Context {V : Type}.
Implicit Types (k : string) (v : V) (m : list (string * V)).

Lemma jsmap_get_set k k' v m :
  jsmap_get k' (jsmap_set k v m) =
  if decide (k = k') then Some v else jsmap_get k' m.
Proof.
  induction m as [|[k0 v0] m IH]; simpl.
  - case_decide as Hk.
    + subst. by rewrite String.eqb_refl.
    + destruct (String.eqb_spec k' k); [congruence | done].
  - destruct (String.eqb_spec k k0) as [->|Hne]; simpl.
    + destruct (String.eqb_spec k' k0) as [->|Hne'].
      * by rewrite decide_True.
      * by rewrite decide_False.
    + destruct (String.eqb_spec k' k0) as [->|Hne'].
      * by rewrite decide_False.
      * apply IH.
Qed.

Lemma jsmap_get_None k m : jsmap_get k m = None ↔ k ∉ m.*1.
Proof.
  induction m as [|[k0 v0] m IH]; simpl.
  - split; [intros _; apply not_elem_of_nil | done].
  - rewrite not_elem_of_cons.
    destruct (String.eqb_spec k k0) as [->|Hne]; [|tauto].
    split; [done | tauto].
Qed.

Lemma jsmap_set_keys k v m :
  (jsmap_set k v m).*1 = if jsmap_has k m then m.*1 else (m.*1 ++ [k])%list.
Proof.
  unfold jsmap_has. induction m as [|[k0 v0] m IH]; [done|].
  cbn [jsmap_set jsmap_get].
  destruct (String.eqb_spec k k0) as [->|Hne]; [done|].
  rewrite fmap_cons, IH. by destruct (jsmap_get k m).
Qed.

Lemma jsmap_set_NoDup k v m : NoDup m.*1 → NoDup (jsmap_set k v m).*1.
Proof.
  intros Hnd. rewrite jsmap_set_keys. unfold jsmap_has.
  destruct (jsmap_get k m) eqn:Hget; [done|].
  apply NoDup_app. split; [done|]. split; [|apply NoDup_singleton].
  intros x Hx Hx'%list_elem_of_singleton. subst x.
  by apply jsmap_get_None in Hget.
Qed.

Lemma jsmap_elem_get k v m :
  NoDup m.*1 → (k, v) ∈ m → jsmap_get k m = Some v.
Proof.
  induction m as [|[k0 v0] m IH]; simpl; intros Hnd Hin.
  - by apply elem_of_nil in Hin.
  - apply NoDup_cons in Hnd as [Hk0 Hnd].
    apply elem_of_cons in Hin as [[= -> ->]|Hin].
    + by rewrite String.eqb_refl.
    + destruct (String.eqb_spec k k0) as [->|Hne]; [|by apply IH].
      exfalso. apply Hk0. apply list_elem_of_fmap. by exists (k0, v).
Qed.
End JsMapFacts.

(** ** The node accumulation law *)

Lemma Qsum_snoc (l : list Q) (x : Q) : Qsum (l ++ [x]) = (Qsum l + x)%Q.
Proof. unfold Qsum. by rewrite foldl_app. Qed.

Lemma linksTo_snoc name l link :
  linksTo name (l ++ [link]) =
  if decide (link_target link = name) then (linksTo name l ++ [link])%list
  else linksTo name l.
Proof.
  unfold linksTo. rewrite filter_app, filter_cons, filter_nil.
  destruct (decide (link_target link = name)); [done | apply app_nil_r].
Qed.

(** The host loop leaves the totals of [targetSystem] alone. *)
Lemma hostLoop_totals t system target servers st :
  let st' := foldl (hostStep t system target) st servers in
  system_rpm (targetSystem st') = system_rpm (targetSystem st) ∧
  system_fpm (targetSystem st') = system_fpm (targetSystem st).
Proof.
  revert st. induction servers as [|[host info] servers IH]; intros st; [done|].
  cbn [foldl]. destruct (IH (hostStep t system target st (host, info))) as [Hr Hf].
  cbn zeta in Hr, Hf. by rewrite Hr, Hf.
Qed.

Lemma linksTo_absent name l :
  (∀ link, link ∈ l → link_target link ≠ name) → linksTo name l = [].
Proof.
  intros H. unfold linksTo. induction l as [|link l IH]; [done|].
  rewrite filter_cons, decide_False.
  - apply IH. intros link' Hin. apply H. by right.
  - apply H. by left.
Qed.

Lemma ensureSystem_accounted name systems0 links0 infos :
  accounted (mkFold systems0 links0 infos) →
  accounted (mkFold (ensureSystem name systems0) links0 infos) ∧
  is_Some (jsmap_get name (ensureSystem name systems0)).
Proof.
  intros (Hnd & Htargets & Hsums). unfold ensureSystem, jsmap_has.
  destruct (jsmap_get name systems0) eqn:Hget.
  { rewrite Hget. split; [by split_and!|by eexists]. }
  simpl in *. split; [|rewrite jsmap_get_set, decide_True; by eauto].
  split_and!; simpl.
  - by apply jsmap_set_NoDup.
  - intros link Hin. rewrite jsmap_set_keys. unfold jsmap_has. rewrite Hget.
    apply elem_of_app. left. by apply Htargets.
  - intros name' info. rewrite jsmap_get_set. case_decide as Hname; [|apply Hsums].
    subst name'. intros [= <-]. rewrite linksTo_absent; [done|].
    intros link Hin Heq. apply jsmap_get_None in Hget. apply Hget.
    rewrite <- Heq. by apply Htargets.
Qed.

Lemma targetStep_accounted t system st entry :
  accounted st → accounted (targetStep t system st entry).
Proof.
  destruct st as [systems0 links0 infos0], entry as [target servers].
  intros Hacc.
  destruct (ensureSystem_accounted target _ _ infos0 Hacc)
    as [(Hnd & Htargets & Hsums) [ts0 Hts0]].
  unfold targetStep. simpl in *. rewrite Hts0. simpl.
  set (hl := foldl _ _ servers).
  destruct (hostLoop_totals t system target servers
              (mkHostLoop ts0 0 0 infos0)) as [Hrpm Hfpm].
  fold hl in Hrpm, Hfpm. simpl in Hrpm, Hfpm.
  destruct (Hsums target ts0 Hts0) as [Hr0 Hf0].
  assert (Hkeys : (jsmap_set target
            (mkSystem (system_rpm (targetSystem hl) + rpm hl)
                      (system_fpm (targetSystem hl) + fpm hl)
                      (hosts (targetSystem hl)))
            (ensureSystem target systems0)).*1 = (ensureSystem target systems0).*1).
  { rewrite jsmap_set_keys. unfold jsmap_has. by rewrite Hts0. }
  split_and!; simpl.
  - by apply jsmap_set_NoDup.
  - intros link Hin. rewrite Hkeys.
    apply elem_of_app in Hin as [Hin|Hin%list_elem_of_singleton];
      [by apply Htargets|].
    subst link. simpl.
    destruct (decide (target ∈ (ensureSystem target systems0).*1)) as [|Hn]; [done|].
    apply jsmap_get_None in Hn. congruence.
  - intros name info. rewrite jsmap_get_set, linksTo_snoc. simpl.
    case_decide as Hname.
    + subst name. intros [= <-]. simpl.
      rewrite !fmap_app, !list_fmap_singleton, !Qsum_snoc. simpl.
      by rewrite Hrpm, Hfpm, Hr0, Hf0.
    + apply Hsums.
Qed.

Lemma systemStep_accounted t st entry :
  accounted st → accounted (systemStep t st entry).
Proof.
  destruct st as [systems0 links0 infos0], entry as [system targets].
  intros Hacc. unfold systemStep. simpl.
  destruct (ensureSystem_accounted system _ _ infos0 Hacc) as [Hacc' _].
  revert Hacc'. generalize (mkFold (ensureSystem system systems0) links0 infos0).
  induction targets as [|entry targets IH]; intros st Hst; [done|].
  simpl. apply IH. by apply targetStep_accounted.
Qed.

Lemma aggregate_accounted t stats :
  accounted (foldl (systemStep t) (mkFold [] [] []) stats).
Proof.
  assert (H0 : accounted (mkFold [] [] [])).
  { split_and!; simpl; [apply NoDup_nil_2 | by intros ? ?%elem_of_nil | done]. }
  revert H0. generalize (mkFold [] [] []).
  induction stats as [|entry stats IH]; intros st Hst; [done|].
  simpl. apply IH. by apply systemStep_accounted.
Qed.

Lemma nodesOf_names systems0 : node_name <$> nodesOf systems0 = systems0.*1.
Proof.
  unfold nodesOf. induction systems0 as [|[name info] l IH]; [done|].
  rewrite !fmap_cons. simpl. f_equal. exact IH.
Qed.

Lemma nodesOf_elem node systems0 :
  node ∈ nodesOf systems0 →
  ∃ info, (node_name node, info) ∈ systems0 ∧
          node_rpm node = system_rpm info ∧ node_fpm node = system_fpm info.
Proof.
  unfold nodesOf. intros ([name info] & -> & Hin)%list_elem_of_fmap.
  by exists info.
Qed.

Lemma ensureSystem_keys name systems0 :
  (ensureSystem name systems0).*1 = keysAdd systems0.*1 name.
Proof.
  unfold ensureSystem, keysAdd, jsmap_has.
  destruct (jsmap_get name systems0) eqn:Hget.
  - rewrite decide_True; [done|].
    destruct (decide (name ∈ systems0.*1)) as [|Hn]; [done|].
    apply jsmap_get_None in Hn. congruence.
  - rewrite decide_False by by apply jsmap_get_None.
    rewrite jsmap_set_keys. unfold jsmap_has. by rewrite Hget.
Qed.

Lemma targetStep_keys t system st entry :
  (systems (targetStep t system st entry)).*1 = keysAdd (systems st).*1 entry.1.
Proof.
  destruct entry as [target servers]. unfold targetStep. simpl.
  rewrite jsmap_set_keys, ensureSystem_keys. unfold jsmap_has.
  destruct (jsmap_get target (ensureSystem target (systems st))) eqn:Hget; [done|].
  exfalso. apply jsmap_get_None in Hget. apply Hget.
  rewrite ensureSystem_keys. unfold keysAdd.
  case_decide; [done|]. apply elem_of_app. right. by apply list_elem_of_singleton.
Qed.

Lemma targetLoop_keys t system targets : ∀ st,
  (systems (foldl (targetStep t system) st targets)).*1 =
  foldl keysAdd (systems st).*1 targets.*1.
Proof.
  induction targets as [|entry targets IH]; intros st; [done|].
  cbn [foldl]. rewrite fmap_cons. cbn [foldl]. by rewrite IH, targetStep_keys.
Qed.

Lemma systemLoop_keys t stats : ∀ st,
  (systems (foldl (systemStep t) st stats)).*1 =
  foldl keysAdd (systems st).*1 (mentions stats).
Proof.
  induction stats as [|[system targets] stats IH]; intros st; [done|].
  cbn [foldl]. rewrite IH. unfold mentions. rewrite bind_cons, foldl_app.
  f_equal. unfold systemStep. rewrite targetLoop_keys. simpl.
  by rewrite ensureSystem_keys.
Qed.

Lemma keysAdd_firstOccurrences xs : ∀ keys,
  foldl keysAdd keys xs =
  (keys ++ filter (λ y, y ∉ keys) (firstOccurrences xs))%list.
Proof.
  induction xs as [|x xs IH]; intros keys.
  - simpl. by rewrite app_nil_r.
  - cbn [foldl firstOccurrences]. rewrite IH. unfold keysAdd.
    destruct (decide (x ∈ keys)) as [Hin|Hnin].
    + rewrite filter_cons_False by (intros H; by apply H).
      rewrite list_filter_filter. f_equal. apply list_filter_iff.
      intros y. split; [|tauto]. intros Hy. split; [done|]. by intros ->.
    + rewrite filter_cons_True by done.
      rewrite list_filter_filter, <- app_assoc. simpl. do 2 f_equal.
      apply list_filter_iff. intros y.
      rewrite not_elem_of_app, list_elem_of_singleton. tauto.
Qed.

Lemma filter_every {A : Type} (P : A → Prop) `{∀ x, Decision (P x)} (l : list A) :
  (∀ x, x ∈ l → P x) → filter P l = l.
Proof.
  induction l as [|x l IH]; intros Hall; [done|].
  rewrite filter_cons_True by (apply Hall; by left).
  f_equal. apply IH. intros y Hy. apply Hall. by right.
Qed.

Lemma elem_of_firstOccurrences (x : string) (l : list string) :
  x ∈ firstOccurrences l ↔ x ∈ l.
Proof.
  induction l as [|y l IH]; [done|].
  cbn [firstOccurrences]. rewrite !elem_of_cons, list_elem_of_filter, IH.
  destruct (decide (x = y)); tauto.
Qed.

Lemma aggregate_names t stats :
  node_name <$> nodes (aggregate t stats).1 = firstOccurrences (mentions stats).
Proof.
  unfold aggregate. simpl. rewrite nodesOf_names, systemLoop_keys. simpl.
  rewrite keysAdd_firstOccurrences. simpl.
  apply filter_every. intros y _. apply not_elem_of_nil.
Qed.

(** C2: in the snapshot that [saveSystemStats] builds, node names are
    distinct; the nodes are the systems that the report mentions, as a
    system or as a target, and no other; every link target has a node; the
    rpm (resp. fpm) of a node is the sum of the rpm (resp. fpm) of the links
    of that snapshot whose target is the node, so that a node that no link
    points to has totals 0; and a system of the report that no link points
    to, one seen only as a source, is in the snapshot as a node with rpm 0
    and fpm 0. *)
Theorem saveSystemStats_node_accumulation (t : Z) (stats : SystemStatsInput) :
  let snapshot := (aggregate t stats).1 in
  NoDup (node_name <$> nodes snapshot) ∧
  (∀ name, name ∈ node_name <$> nodes snapshot ↔ name ∈ mentions stats) ∧
  (∀ link, link ∈ links snapshot →
     link_target link ∈ node_name <$> nodes snapshot) ∧
  (∀ node, node ∈ nodes snapshot →
     node_rpm node = Qsum (link_rpm <$> linksTo (node_name node) (links snapshot)) ∧
     node_fpm node = Qsum (link_fpm <$> linksTo (node_name node) (links snapshot)) ∧
     ((∀ link, link ∈ links snapshot → link_target link ≠ node_name node) →
      node_rpm node = 0%Q ∧ node_fpm node = 0%Q)) ∧
  (∀ system targets, (system, targets) ∈ stats →
     (∀ link, link ∈ links snapshot → link_target link ≠ system) →
     mkNode system 0 0 ∈ nodes snapshot).
Proof.
  intros snapshot.
  assert (Hnames : ∀ name,
            name ∈ node_name <$> nodes snapshot ↔ name ∈ mentions stats).
  { intros name. subst snapshot.
    by rewrite aggregate_names, elem_of_firstOccurrences. }
  subst snapshot. unfold aggregate in *. simpl in *.
  destruct (aggregate_accounted t stats) as (Hnd & Htargets & Hsums).
  assert (Hlaw : ∀ node,
            node ∈ nodesOf (systems (foldl (systemStep t) (mkFold [] [] []) stats)) →
            node_rpm node =
              Qsum (link_rpm <$> linksTo (node_name node)
                      (fold_links (foldl (systemStep t) (mkFold [] [] []) stats))) ∧
            node_fpm node =
              Qsum (link_fpm <$> linksTo (node_name node)
                      (fold_links (foldl (systemStep t) (mkFold [] [] []) stats)))).
  { intros node Hin. apply nodesOf_elem in Hin as (info & Hin & -> & ->).
    apply (jsmap_elem_get _ _ _ Hnd) in Hin. by apply Hsums. }
  split_and!.
  - by rewrite nodesOf_names.
  - exact Hnames.
  - by rewrite nodesOf_names.
  - intros node Hin. destruct (Hlaw node Hin) as [Hr Hf].
    split_and!; [done | done |].
    intros Hnone. by rewrite Hr, Hf, linksTo_absent.
  - intros system targets Hin Hnone.
    assert (Hsys : system ∈ mentions stats).
    { unfold mentions. apply list_elem_of_bind. exists (system, targets).
      split; [by left | done]. }
    apply Hnames, list_elem_of_fmap in Hsys as (node & Hname & Hnode).
    destruct (Hlaw node Hnode) as [Hr Hf]. rewrite <- Hname in Hr, Hf.
    rewrite linksTo_absent in Hr, Hf by done.
    destruct node as [name r f]. simpl in *. by subst.
Qed.

(** In the snapshot of [{A: {B: {h1: {rpm: 10, fpm: 1}}}}] the system [A],
    seen only as a source, is a node with totals 0, and the totals of [B]
    are the sums over the one link. *)
Lemma saveSystemStats_node_accumulation_witness :
  mkNode "A" 0 0 ∈ nodes (aggregate 600 reportAB).1 ∧
  node_rpm (mkNode "B" 10 1) = Qsum (link_rpm <$> linksTo "B" (links snapshotAB)) ∧
  node_fpm (mkNode "B" 10 1) = Qsum (link_fpm <$> linksTo "B" (links snapshotAB)).
Proof.
  destruct (saveSystemStats_node_accumulation 600 reportAB)
    as (_ & _ & _ & Hlaw & Hsource).
  split.
  - apply (Hsource "A" [("B", [("h1", mkLeaf (Some 10%Q) (Some 1%Q))])]).
    + by left.
    + intros link Hin. apply list_elem_of_In in Hin. vm_compute in Hin.
      destruct Hin as [<-|[]]. discriminate.
  - assert (Hin : mkNode "B" 10 1 ∈ nodes (aggregate 600 reportAB).1).
    { apply list_elem_of_In. vm_compute. tauto. }
    destruct (Hlaw (mkNode "B" 10 1) Hin) as (Hr & Hf & _).
    split; [exact Hr | exact Hf].
Defined.

(** ** Averages over a window *)

Lemma visited_seqZ time n :
  visited time n = (λ k, time + 60 * k) <$> seqZ 0 (Z.of_nat n).
Proof.
  revert time. induction n as [|n IH]; intros time; [done|].
  rewrite seqZ_cons by lia. rewrite fmap_cons. simpl visited.
  f_equal; [lia|].
  rewrite IH. replace (Z.pred (Z.of_nat (S n))) with (Z.of_nat n) by lia.
  change (Z.succ 0) with (1 + 0). rewrite <- fmap_add_seqZ, <- list_fmap_compose.
  apply list_fmap_ext. intros _ k _. simpl. lia.
Qed.

Lemma calcDataAvg_loop_visited data end_ (n : nat) : ∀ time sum count,
  end_ < time + 60 * Z.of_nat n →
  (n ≠ O → time + 60 * (Z.of_nat n - 1) ≤ end_) →
  calcDataAvg_loop data end_ time sum count =
  foldl (scanStep data) (sum, count) (visited time n).
Proof.
  induction n as [|n IH]; intros time sum count Hlt Hge.
  - simp calcDataAvg_loop. destruct (decide (time ≤ end_)); [lia|]. done.
  - simp calcDataAvg_loop. destruct (decide (time ≤ end_)); [|lia].
    simpl. unfold scanStep at 2. simpl.
    destruct (data !! time) as [v|]; simpl; apply IH; lia.
Qed.

Lemma scan_samples data times : ∀ sum count,
  foldl (scanStep data) (sum, count) times =
  (foldl Qplus sum (samples data times),
   count + Z.of_nat (length (samples data times))).
Proof.
  induction times as [|t times IH]; intros sum count; simpl.
  - f_equal. lia.
  - unfold scanStep at 2, samples. simpl. fold (samples data times).
    destruct (data !! t) as [v|]; simpl; rewrite IH; [f_equal; lia | done].
Qed.

(** [calcDataAvg] over a window of [n] rounds. *)
Lemma calcDataAvg_visited data begin end_ (n : nat) :
  end_ < begin + 60 * Z.of_nat n →
  (n ≠ O → begin + 60 * (Z.of_nat n - 1) ≤ end_) →
  calcDataAvg data begin end_ =
  let vs := samples data (visited begin n) in
  if Z.of_nat (length vs) =? 0 then 0%Q
  else toFixed3 (Qsum vs / inject_Z (Z.of_nat (length vs))).
Proof.
  intros Hlt Hge. unfold calcDataAvg.
  rewrite (calcDataAvg_loop_visited data end_ n) by done.
  rewrite scan_samples. done.
Qed.

Lemma horizonTimes_visited latest minutes :
  0 ≤ minutes →
  horizonTimes latest minutes =
  visited (latest - minutes * 60) (Z.to_nat (minutes + 1)).
Proof.
  intros Hm. rewrite visited_seqZ. unfold horizonTimes.
  by rewrite Z2Nat.id by lia.
Qed.

Lemma calcDataAvg_horizon data latest minutes :
  0 ≤ minutes →
  calcDataAvg data (latest - minutes * 60) latest =
  let vs := samples data (horizonTimes latest minutes) in
  if Z.of_nat (length vs) =? 0 then 0%Q
  else toFixed3 (Qsum vs / inject_Z (Z.of_nat (length vs))).
Proof.
  intros Hm. rewrite horizonTimes_visited by done.
  apply calcDataAvg_visited; lia.
Qed.

(** A window without a sample leaves the accumulators of the loop as they
    are. *)
Lemma calcDataAvg_loop_no_sample data end_ time sum count :
  (∀ k, 0 ≤ k → time + 60 * k ≤ end_ → data !! (time + 60 * k) = None) →
  calcDataAvg_loop data end_ time sum count = (sum, count).
Proof.
  funelim (calcDataAvg_loop data end_ time sum count); intros Hnone; [done | |].
  - exfalso. specialize (Hnone 0). rewrite Z.mul_0_r, Z.add_0_r in Hnone.
    match goal with Hv : data !! _ = Some _ |- _ => rewrite Hnone in Hv by lia end.
    done.
  - match goal with IH : _ → calcDataAvg_loop _ _ _ _ _ = _ |- _ => apply IH end.
    intros k Hk Hle. rewrite <- (Hnone (k + 1)) by lia. f_equal. lia.
Qed.




(** The exact rationals give [calcDataAvg] as modelled above. *)
Lemma calcDataAvgIn_rationals (data : gmap Z Q) (begin end_ : Z) :
  calcDataAvgIn rationals data begin end_ = calcDataAvg data begin end_.
Proof.
  unfold calcDataAvgIn, calcDataAvg.
  assert (Hloop : ∀ (n : nat) time sum count,
            end_ - time + 1 ≤ Z.of_nat n →
            calcDataAvgIn_loop rationals data end_ time sum count =
            calcDataAvg_loop data end_ time sum count).
  { induction n as [|n IH]; intros time sum count Hn.
    - simp calcDataAvgIn_loop calcDataAvg_loop.
      destruct (decide (time ≤ end_)); [lia | done].
    - simp calcDataAvgIn_loop calcDataAvg_loop.
      destruct (decide (time ≤ end_)); [|done]. simpl.
      destruct (data !! time) as [v|]; simpl; apply IH; lia. }
  by rewrite (Hloop (Z.to_nat (end_ - begin + 1))) by lia.
Qed.




(** Where the quotient lies between two decimals the double decides: the
    series [{0: 0.1875, 60: 0, 120: 0, 180: 0, 240: 0}] over the 4 minutes up
    to 240 has the quotient [0.1875 / 5], a double just below 0.0375, and
    averages to 0.037; and a quotient of exactly 0.0625 goes to 0.063. *)
Example calcDataAvgIn_binary64_ties :
  calcDataAvgIn binary64 seriesOfTie (240 - 4 * 60) 240 = thousandths 37 ∧
  toFixed3F (PrimFloat.div (ofZ 1) (ofZ 16)) = thousandths 63.
Proof. split; by vm_compute. Qed.

(** C6: when the series has no sample at any of the scanned time stamps
    [begin, begin + 60, ...] up to [end], [calcDataAvg] returns the number
    0. *)
Theorem calcDataAvg_no_sample (data : gmap Z Q) (begin end_ : Z) :
  (∀ k, 0 ≤ k → begin + 60 * k ≤ end_ → data !! (begin + 60 * k) = None) →
  calcDataAvg data begin end_ = 0%Q.
Proof.
  intros Hnone. unfold calcDataAvg.
  by rewrite calcDataAvg_loop_no_sample.
Qed.

Lemma calcDataAvg_no_sample_witness : calcDataAvg seriesOffGrid 0 60 = 0%Q.
Proof.
  apply calcDataAvg_no_sample. intros k Hk _.
  apply lookup_singleton_ne. lia.
Defined.

(** ** The lookup maps of [getSystemStats] *)

Lemma recordSample_lookup_ne key t r f (m : gmap string PropertyLookupMap) k :
  key ≠ k → recordSample key t r f m !! k = m !! k.
Proof.
  intros Hne. unfold recordSample.
  rewrite !lookup_alter_ne by done.
  destruct (m !! key); [done|]. by rewrite lookup_insert_ne.
Qed.

Lemma recordSample_lookup_eq key t r f (m : gmap string PropertyLookupMap) :
  (∀ old, m !! key = Some old →
     is_Some (old !! "rpm") ∧ is_Some (old !! "fpm")) →
  ∃ lookup, recordSample key t r f m !! key = Some lookup ∧
            is_Some (lookup !! "rpm") ∧ is_Some (lookup !! "fpm").
Proof.
  intros Hold. unfold recordSample. rewrite !lookup_alter_eq.
  assert (∃ o, match m !! key with
               | Some _ => m
               | None => <[key := <["rpm" := ∅]> (<["fpm" := ∅]> ∅)]> m
               end !! key = Some o ∧
               is_Some (o !! "rpm") ∧ is_Some (o !! "fpm")) as (o & -> & Hr & Hf).
  { destruct (m !! key) as [old|] eqn:Hkey.
    - exists old. split; [done|]. by apply Hold.
    - eexists. rewrite lookup_insert_eq. split; [done|].
      split; [by rewrite lookup_insert_eq | by rewrite lookup_insert_ne, lookup_insert_eq]. }
  eexists. split; [done|]. split.
  - rewrite lookup_alter_ne by done. rewrite lookup_alter_eq.
    by apply fmap_is_Some.
  - rewrite lookup_alter_eq, lookup_alter_ne by done.
    by apply fmap_is_Some.
Qed.

Lemma recordSample_complete key t r f (m : gmap string PropertyLookupMap) :
  complete m → complete (recordSample key t r f m).
Proof.
  intros Hm k lookup Hk. destruct (decide (key = k)) as [->|Hne].
  - destruct (recordSample_lookup_eq k t r f m) as (lookup' & Heq & H);
      [by intros old; apply Hm|].
    rewrite Heq in Hk. by injection Hk as <-.
  - rewrite recordSample_lookup_ne in Hk by done. by apply (Hm k).
Qed.

Lemma recordSample_is_Some key t r f (m : gmap string PropertyLookupMap) k :
  complete m →
  is_Some (m !! k) ∨ k = key → is_Some (recordSample key t r f m !! k).
Proof.
  intros Hm Hk. destruct (decide (key = k)) as [->|Hne].
  - destruct (recordSample_lookup_eq k t r f m) as (lookup' & -> & _);
      [by intros old; apply Hm | done].
  - rewrite recordSample_lookup_ne by done. by destruct Hk as [?| ->].
Qed.

(** Recording one sample per element of a list. *)
Lemma recordSamples_spec {A : Type} (keyOf : A → string) (rpmOf fpmOf : A → Q)
    (t : Z) (l : list A) : ∀ m : gmap string PropertyLookupMap,
  complete m →
  let m' := foldl (λ m a, recordSample (keyOf a) t (rpmOf a) (fpmOf a) m) m l in
  complete m' ∧
  (∀ k, is_Some (m !! k) → is_Some (m' !! k)) ∧
  (∀ a, a ∈ l → is_Some (m' !! keyOf a)).
Proof.
  induction l as [|a l IH]; intros m Hm; simpl.
  - split; [done|]. split; [done|]. by intros a ?%elem_of_nil.
  - destruct (IH (recordSample (keyOf a) t (rpmOf a) (fpmOf a) m))
      as (Hc & Hmono & Hl); [by apply recordSample_complete|].
    split; [done|]. split.
    + intros k Hk. apply Hmono, recordSample_is_Some; auto.
    + intros a' [->|Hin]%elem_of_cons; [|by apply Hl].
      apply Hmono, recordSample_is_Some; auto.
Qed.

Lemma addSnapshot_spec maps stat :
  complete maps.1 → complete maps.2 →
  let maps' := addSnapshot maps stat in
  (complete maps'.1 ∧ complete maps'.2) ∧
  (∀ k, is_Some (maps.1 !! k) → is_Some (maps'.1 !! k)) ∧
  (∀ k, is_Some (maps.2 !! k) → is_Some (maps'.2 !! k)) ∧
  (∀ node, node ∈ nodes stat → is_Some (maps'.1 !! node_name node)) ∧
  (∀ link, link ∈ links stat →
     is_Some (maps'.2 !! getLinkKey (link_source link) (link_target link))).
Proof.
  intros H1 H2. unfold addSnapshot. simpl.
  destruct (recordSamples_spec node_name node_rpm node_fpm (time stat)
              (nodes stat) maps.1 H1) as (? & ? & ?).
  destruct (recordSamples_spec
              (λ link, getLinkKey (link_source link) (link_target link))
              link_rpm link_fpm (time stat) (links stat) maps.2 H2) as (? & ? & ?).
  done.
Qed.

Lemma addSnapshots_spec stats : ∀ maps,
  complete maps.1 → complete maps.2 →
  let maps' := foldl addSnapshot maps stats in
  (complete maps'.1 ∧ complete maps'.2) ∧
  (∀ k, is_Some (maps.1 !! k) → is_Some (maps'.1 !! k)) ∧
  (∀ k, is_Some (maps.2 !! k) → is_Some (maps'.2 !! k)) ∧
  (∀ stat node, stat ∈ stats → node ∈ nodes stat →
     is_Some (maps'.1 !! node_name node)) ∧
  (∀ stat link, stat ∈ stats → link ∈ links stat →
     is_Some (maps'.2 !! getLinkKey (link_source link) (link_target link))).
Proof.
  induction stats as [|stat stats IH]; intros maps H1 H2; simpl.
  - split; [done|]. split; [done|]. split; [done|].
    split; by intros ? ? ?%elem_of_nil.
  - destruct (addSnapshot_spec maps stat H1 H2)
      as ([Hc1 Hc2] & Hm1 & Hm2 & Hn & Hl).
    destruct (IH (addSnapshot maps stat) Hc1 Hc2)
      as (Hc & Hm1' & Hm2' & Hn' & Hl').
    split; [done|]. split; [by auto|]. split; [by auto|]. split.
    + intros s node [->|Hin]%elem_of_cons Hnode; [by auto | by eauto].
    + intros s link [->|Hin]%elem_of_cons Hlink; [by auto | by eauto].
Qed.

Lemma calcNodeAvg_is_Some nodeMap latest node property minutes :
  complete nodeMap → is_Some (nodeMap !! node) →
  property = "rpm" ∨ property = "fpm" →
  is_Some (calcNodeAvg nodeMap latest node property minutes).
Proof.
  intros Hc [lookup Hnode] Hp. unfold calcNodeAvg. rewrite Hnode. simpl.
  destruct (Hc _ _ Hnode) as [[d1 H1] [d2 H2]].
  destruct Hp as [->| ->]; [rewrite H1 | rewrite H2]; by eexists.
Qed.

Lemma nodeEntry_reported nodeMap latest node :
  complete nodeMap → is_Some (nodeMap !! node_name node) →
  ∃ entry, nodeEntry nodeMap latest node = Some entry ∧ nodeReported node entry.
Proof.
  intros Hc Hnode. unfold nodeEntry.
  destruct (calcNodeAvg_is_Some nodeMap latest (node_name node) "rpm" 5)
    as [r5 ->]; [done | done | by left |].
  destruct (calcNodeAvg_is_Some nodeMap latest (node_name node) "rpm" 15)
    as [r15 ->]; [done | done | by left |].
  destruct (calcNodeAvg_is_Some nodeMap latest (node_name node) "fpm" 5)
    as [f5 ->]; [done | done | by right |].
  destruct (calcNodeAvg_is_Some nodeMap latest (node_name node) "fpm" 15)
    as [f15 ->]; [done | done | by right |].
  simpl. eexists. split; [done|]. by exists r5, r15, f5, f15.
Qed.

Lemma linkEntry_reported linkMap latest link :
  complete linkMap →
  is_Some (linkMap !! getLinkKey (link_source link) (link_target link)) →
  ∃ entry, linkEntry linkMap latest link = Some entry ∧ linkReported link entry.
Proof.
  intros Hc Hlink. unfold linkEntry, calcLinkAvg.
  fold (calcNodeAvg linkMap latest
          (getLinkKey (link_source link) (link_target link)) "rpm" 5).
  fold (calcNodeAvg linkMap latest
          (getLinkKey (link_source link) (link_target link)) "rpm" 15).
  fold (calcNodeAvg linkMap latest
          (getLinkKey (link_source link) (link_target link)) "fpm" 5).
  fold (calcNodeAvg linkMap latest
          (getLinkKey (link_source link) (link_target link)) "fpm" 15).
  destruct (calcNodeAvg_is_Some linkMap latest
              (getLinkKey (link_source link) (link_target link)) "rpm" 5)
    as [r5 ->]; [done | done | by left |].
  destruct (calcNodeAvg_is_Some linkMap latest
              (getLinkKey (link_source link) (link_target link)) "rpm" 15)
    as [r15 ->]; [done | done | by left |].
  destruct (calcNodeAvg_is_Some linkMap latest
              (getLinkKey (link_source link) (link_target link)) "fpm" 5)
    as [f5 ->]; [done | done | by right |].
  destruct (calcNodeAvg_is_Some linkMap latest
              (getLinkKey (link_source link) (link_target link)) "fpm" 15)
    as [f15 ->]; [done | done | by right |].
  simpl. eexists. split; [done|]. by exists r5, r15, f5, f15.
Qed.

Lemma nodeEntry_Some nodeMap latest node entry :
  nodeEntry nodeMap latest node = Some entry → nodeReported node entry.
Proof.
  unfold nodeEntry. intros H.
  destruct (calcNodeAvg nodeMap latest (node_name node) "rpm" 5) as [r5|]; [|done].
  destruct (calcNodeAvg nodeMap latest (node_name node) "rpm" 15) as [r15|]; [|done].
  destruct (calcNodeAvg nodeMap latest (node_name node) "fpm" 5) as [f5|]; [|done].
  destruct (calcNodeAvg nodeMap latest (node_name node) "fpm" 15) as [f15|]; [|done].
  simpl in H. injection H as <-. by exists r5, r15, f5, f15.
Qed.

Lemma linkEntry_Some linkMap latest link entry :
  linkEntry linkMap latest link = Some entry → linkReported link entry.
Proof.
  unfold linkEntry. intros H.
  destruct (calcLinkAvg linkMap latest (link_source link) (link_target link) "rpm" 5)
    as [r5|]; [|done].
  destruct (calcLinkAvg linkMap latest (link_source link) (link_target link) "rpm" 15)
    as [r15|]; [|done].
  destruct (calcLinkAvg linkMap latest (link_source link) (link_target link) "fpm" 5)
    as [f5|]; [|done].
  destruct (calcLinkAvg linkMap latest (link_source link) (link_target link) "fpm" 15)
    as [f15|]; [|done].
  simpl in H. injection H as <-. by exists r5, r15, f5, f15.
Qed.

(** The second callback on a window that is not empty: no lookup fails, and
    the result lists the nodes and links of the first snapshot of the
    window. *)
Lemma onStats_reported latest latestStats older :
  ∃ ns ls,
    onStats latest (latestStats :: older) = Resolved (mkDto latest ns ls) ∧
    Forall2 nodeReported (nodes latestStats) ns ∧
    Forall2 linkReported (links latestStats) ls.
Proof.
  unfold onStats.
  destruct (addSnapshots_spec (latestStats :: older) (∅, ∅))
    as ([Hc1 Hc2] & _ & _ & Hn & Hl); [done | done |].
  destruct (foldl addSnapshot (∅, ∅) (latestStats :: older))
    as [nodeMap linkMap]. simpl in Hc1, Hc2, Hn, Hl.
  destruct (mapM_is_Some_2 (nodeEntry nodeMap latest) (nodes latestStats))
    as [ns Hns].
  { apply Forall_forall. intros node Hin.
    destruct (nodeEntry_reported nodeMap latest node) as (entry & Heq & _);
      [done | | by exists entry].
    apply (Hn latestStats); [by left | done]. }
  destruct (mapM_is_Some_2 (linkEntry linkMap latest) (links latestStats))
    as [ls Hls].
  { apply Forall_forall. intros link Hin.
    destruct (linkEntry_reported linkMap latest link) as (entry & Heq & _);
      [done | | by exists entry].
    apply (Hl latestStats); [by left | done]. }
  exists ns, ls. rewrite Hns, Hls. split; [done|]. split.
  - apply mapM_Some_1 in Hns. eapply Forall2_impl; [exact Hns|].
    intros node entry. apply nodeEntry_Some.
  - apply mapM_Some_1 in Hls. eapply Forall2_impl; [exact Hls|].
    intros link entry. apply linkEntry_Some.
Qed.

(** C7: when the latest time is [t] and the window fetched for it is not
    empty, [getSystemStats] succeeds with time [t]; its nodes (links) are
    those of the first snapshot of the window, the latest one, one entry
    each and in the same order, and the first number of every triple is the
    rpm (fpm) stored in that snapshot, as it is. *)
Theorem getSystemStats_latest_entities {W : Type}
    (handle : ∀ c : Call, W → W * Outcome (Response c))
    (w w1 w2 : W) (t : Z) (latestStats : SystemStats) (older : list SystemStats) :
  handle repo_getLatestStatsTime w = (w1, Fulfilled (Some t)) →
  handle (repo_getSystemStats (t - 14 * 60) t) w1 =
    (w2, Fulfilled (latestStats :: older)) →
  ∃ ns ls,
    run handle getSystemStats w =
      (w2, [repo_getLatestStatsTime; repo_getSystemStats (t - 14 * 60) t],
       Fulfilled (mkDto t ns ls)) ∧
    Forall2 nodeReported (nodes latestStats) ns ∧
    Forall2 linkReported (links latestStats) ls.
Proof.
  intros Htime Hstats.
  destruct (onStats_reported t latestStats older) as (ns & ls & Hon & Hns & Hls).
  exists ns, ls. split; [|done].
  unfold getSystemStats. cbn [call andThen run]. rewrite Htime.
  cbn [andThen run]. rewrite Hstats, Hon. done.
Qed.

(** C8: when the repository has no latest time, and also when it has one
    but the window fetched for it is empty, [getSystemStats] succeeds with
    [{time: 0, nodes: [], links: []}]. *)
Theorem getSystemStats_empty {W : Type}
    (handle : ∀ c : Call, W → W * Outcome (Response c)) (w : W) :
  (∀ w1, handle repo_getLatestStatsTime w = (w1, Fulfilled None) →
     run handle getSystemStats w =
       (w1, [repo_getLatestStatsTime], Fulfilled (mkDto 0 [] []))) ∧
  (∀ w1 t w2,
     handle repo_getLatestStatsTime w = (w1, Fulfilled (Some t)) →
     handle (repo_getSystemStats (t - 14 * 60) t) w1 = (w2, Fulfilled []) →
     run handle getSystemStats w =
       (w2, [repo_getLatestStatsTime; repo_getSystemStats (t - 14 * 60) t],
        Fulfilled (mkDto 0 [] []))).
Proof.
  unfold getSystemStats. cbn [call andThen run]. split.
  - intros w1 ->. done.
  - intros w1 t w2 -> Hstats. cbn [andThen run]. rewrite Hstats. done.
Qed.

Lemma getSystemStats_empty_witness :
  run memory getSystemStats emptyStore =
    (emptyStore, [repo_getLatestStatsTime], Fulfilled (mkDto 0 [] [])) ∧
  run staleRepository getSystemStats () =
    ((), [repo_getLatestStatsTime; repo_getSystemStats (600 - 14 * 60) 600],
     Fulfilled (mkDto 0 [] [])).
Proof.
  split.
  - apply (proj1 (getSystemStats_empty memory emptyStore)). reflexivity.
  - apply (proj2 (getSystemStats_empty staleRepository ()) () 600 ());
      reflexivity.
Defined.

Lemma getSystemStats_latest_entities_witness :
  ∃ ns ls,
    run memory getSystemStats storeOfTwo =
      (storeOfTwo, [repo_getLatestStatsTime; repo_getSystemStats (60 - 14 * 60) 60],
       Fulfilled (mkDto 60 ns ls)) ∧
    Forall2 nodeReported (nodes snapshotAt60) ns ∧
    Forall2 linkReported (links snapshotAt60) ls.
Proof.
  apply (getSystemStats_latest_entities memory storeOfTwo storeOfTwo storeOfTwo
           60 snapshotAt60 [snapshotAt0]); reflexivity.
Defined.

(** ** A leaf without [fpm] *)

(** For a leaf without [fpm], one round of the host loop adds 0 to the fpm
    of the host bucket and of the link, and stores the field in the detail
    record as it was read. *)
Lemma hostStep_missing_fpm t system target st host (r : option Q) :
  let st' := hostStep t system target st (host, mkLeaf r None) in
  fpm st' = (fpm st + 0)%Q ∧
  server_fpm <$> hosts (targetSystem st') !! host =
    Some (default 0%Q (server_fpm <$> hosts (targetSystem st) !! host) + 0)%Q ∧
  attr_fpm <$> last (hl_systemInfos st') = Some None.
Proof.
  simpl. split; [done|]. split.
  - rewrite lookup_insert_eq. simpl. by destruct (hosts (targetSystem st) !! host).
  - by rewrite last_snoc.
Qed.

(** C3, as far as the code goes: for the report [{A: {B: {h1: {rpm: 10}}}}]
    the missing [fpm] counts as 0 in the link and in the node totals, but the
    detail record carries the field as it was read, undefined, and not 0. *)
Theorem saveSystemStats_missing_fpm :
  aggregate 600 reportNoFpm =
    (mkStats 600 [mkNode "A" 0 0; mkNode "B" 10 0] [mkLink "A" "B" 10 0],
     [mkAttr 600 "B" "h1" "A" (Some 10%Q) None]) ∧
  (aggregate 600 reportNoFpm).2 ≠ [mkAttr 600 "B" "h1" "A" (Some 10%Q) (Some 0%Q)].
Proof. split; [reflexivity | discriminate]. Qed.

(** ** The scenario of two samples *)

(** Ingesting the link from [A] to [B] with rpm 10 at time 0 and with rpm 20
    at time 60 leaves the two snapshots in the store; the query then reports
    the rpm triple [[20, 15, 15]] for node [B]. *)
Example getSystemStats_two_samples :
  snapshots
    (run memory
       (saveSystemStats 60 [("A", [("B", [("h1", mkLeaf (Some 20%Q) (Some 1%Q))])])])
       (run memory
          (saveSystemStats 0 [("A", [("B", [("h1", mkLeaf (Some 10%Q) (Some 1%Q))])])])
          emptyStore).1.1).1.1 = snapshots storeOfTwo ∧
  (run memory getSystemStats storeOfTwo).2 =
    Fulfilled
      (mkDto 60
         [("A", [0; 0; 0], [0; 0; 0]); ("B", [20; 15; 15], [1; 1; 1])]%Q
         [("A", "B", [20; 15; 15], [1; 1; 1])]%Q).
Proof. split; by vm_compute. Qed.

(** * Further properties *)

(** ** The links and the detail records of a report *)

Lemma hostLoop_spec t system target servers : ∀ st,
  let st' := foldl (hostStep t system target) st servers in
  rpm st' = foldl Qplus (rpm st) ((λ e, orZero (leaf_rpm e.2)) <$> servers) ∧
  fpm st' = foldl Qplus (fpm st) ((λ e, orZero (leaf_fpm e.2)) <$> servers) ∧
  hl_systemInfos st' =
    (hl_systemInfos st ++ (detailOf t system target <$> servers))%list.
Proof.
  induction servers as [|[host info] servers IH]; intros st.
  - simpl. by rewrite app_nil_r.
  - cbn [foldl fmap list_fmap].
    destruct (IH (hostStep t system target st (host, info))) as (Hr & Hf & Hi).
    cbn zeta in *. rewrite Hr, Hf, Hi. simpl.
    by rewrite <- app_assoc.
Qed.

Lemma targetStep_spec t system st entry :
  fold_links (targetStep t system st entry) =
    (fold_links st ++ [linkOf system entry])%list ∧
  systemInfos (targetStep t system st entry) =
    (systemInfos st ++ (detailOf t system entry.1 <$> entry.2))%list.
Proof.
  destruct entry as [target servers]. unfold targetStep. simpl.
  set (init := mkHostLoop _ 0 0 (systemInfos st)).
  destruct (hostLoop_spec t system target servers init) as (Hr & Hf & Hi).
  cbn zeta in *. by rewrite Hr, Hf, Hi.
Qed.

Lemma targetLoop_spec t system targets : ∀ st,
  let st' := foldl (targetStep t system) st targets in
  fold_links st' = (fold_links st ++ (linkOf system <$> targets))%list ∧
  systemInfos st' =
    (systemInfos st ++
     (targets ≫= λ '(target, servers), detailOf t system target <$> servers))%list.
Proof.
  induction targets as [|entry targets IH]; intros st.
  - simpl. by rewrite !app_nil_r.
  - cbn [foldl]. destruct (IH (targetStep t system st entry)) as [Hl Hi].
    destruct (targetStep_spec t system st entry) as [Hl1 Hi1].
    cbn zeta in *. rewrite Hl, Hi, Hl1, Hi1.
    rewrite fmap_cons, bind_cons, <- !app_assoc. by destruct entry.
Qed.

Lemma systemLoop_spec t stats : ∀ st,
  let st' := foldl (systemStep t) st stats in
  fold_links st' = (fold_links st ++ linksOf stats)%list ∧
  systemInfos st' = (systemInfos st ++ detailsOf t stats)%list.
Proof.
  induction stats as [|[system targets] stats IH]; intros st.
  - simpl. by rewrite !app_nil_r.
  - cbn [foldl]. destruct (IH (systemStep t st (system, targets))) as [Hl Hi].
    cbn zeta in *. rewrite Hl, Hi. unfold systemStep.
    destruct (targetLoop_spec t system targets
                (mkFold (ensureSystem system (systems st)) (fold_links st)
                        (systemInfos st))) as [Hl1 Hi1].
    cbn zeta in *. rewrite Hl1, Hi1. simpl.
    by rewrite <- !app_assoc.
Qed.

(** The links of the snapshot are those of the report, pair by pair and in
    the order of the walk: one link per [(system, target)] pair, whose rpm
    and fpm are the sums of [rpm || 0] and [fpm || 0] over the hosts of the
    pair. *)
Theorem saveSystemStats_links (t : Z) (stats : SystemStatsInput) :
  links (aggregate t stats).1 = linksOf stats.
Proof.
  unfold aggregate. simpl.
  by destruct (systemLoop_spec t stats (mkFold [] [] [])) as [-> _].
Qed.

(** The detail records are those of the report, leaf by leaf and in the
    order of the walk: each carries the time of the call, the target as its
    name, the host as its node, the system as its source, and the two fields
    of the leaf as they are. *)
Theorem saveSystemStats_details (t : Z) (stats : SystemStatsInput) :
  (aggregate t stats).2 = detailsOf t stats.
Proof.
  unfold aggregate. simpl.
  by destruct (systemLoop_spec t stats (mkFold [] [] [])) as [_ ->].
Qed.

(** ** The order of the nodes *)

(** The nodes of the snapshot are the systems that the report mentions as a
    system or as a target, each once, in the order in which the walk first
    meets them. *)
Theorem saveSystemStats_node_order (t : Z) (stats : SystemStatsInput) :
  node_name <$> nodes (aggregate t stats).1 = firstOccurrences (mentions stats).
Proof.
  unfold aggregate. simpl. rewrite nodesOf_names, systemLoop_keys. simpl.
  rewrite keysAdd_firstOccurrences. simpl.
  apply filter_every. intros y _. apply not_elem_of_nil.
Qed.

(** ** Node totals against link totals *)

Lemma Qsum_from (l : list Q) : ∀ a, (foldl Qplus a l == a + Qsum l)%Q.
Proof.
  unfold Qsum. induction l as [|x l IH]; intros a; simpl.
  - ring.
  - rewrite IH, (IH (0 + x)%Q). ring.
Qed.

Lemma Qsum_cons (x : Q) (l : list Q) : (Qsum (x :: l) == x + Qsum l)%Q.
Proof. unfold Qsum at 1. simpl. rewrite Qsum_from. ring. Qed.

Lemma Qsum_fmap_ext {A : Type} (f g : A → Q) (l : list A) :
  (∀ x, x ∈ l → (f x == g x)%Q) → (Qsum (f <$> l) == Qsum (g <$> l))%Q.
Proof.
  induction l as [|x l IH]; intros Hfg; [reflexivity|].
  rewrite !fmap_cons, !Qsum_cons, IH.
  - rewrite (Hfg x) by by left. reflexivity.
  - intros y Hy. apply Hfg. by right.
Qed.

Lemma Qsum_fmap_plus {A : Type} (f g : A → Q) (l : list A) :
  (Qsum ((λ x, f x + g x) <$> l) == Qsum (f <$> l) + Qsum (g <$> l))%Q.
Proof.
  induction l as [|x l IH]; [reflexivity|].
  rewrite !fmap_cons, !Qsum_cons, IH. ring.
Qed.

Lemma Qsum_fmap_zero {A : Type} (l : list A) :
  (Qsum ((λ _, 0) <$> l) == 0)%Q.
Proof.
  induction l as [|x l IH]; [reflexivity|].
  rewrite fmap_cons, Qsum_cons, IH. ring.
Qed.

(** Over distinct names, the sum of a value placed at one of them is that
    value. *)
Lemma Qsum_one_name (names : list string) (name : string) (v : Q) :
  NoDup names → name ∈ names →
  (Qsum ((λ n, if decide (name = n) then v else 0) <$> names) == v)%Q.
Proof.
  induction names as [|n names IH]; intros Hnd Hin.
  - by apply elem_of_nil in Hin.
  - apply NoDup_cons in Hnd as [Hn Hnd]. rewrite fmap_cons, Qsum_cons.
    destruct (decide (name = n)) as [->|Hne].
    + rewrite (Qsum_fmap_ext _ (λ _, 0%Q)), Qsum_fmap_zero; [ring|].
      intros y Hy. case_decide; [by subst | reflexivity].
    + rewrite IH; [ring | done |].
      by apply elem_of_cons in Hin as [?|?].
Qed.

(** Summing, over distinct names that include every target, the links that
    point to each name counts every link once. *)
Lemma Qsum_by_target (val : LinkMetric → Q) (names : list string)
    (ls : list LinkMetric) :
  NoDup names →
  (∀ link, link ∈ ls → link_target link ∈ names) →
  (Qsum ((λ n, Qsum (val <$> linksTo n ls)) <$> names) == Qsum (val <$> ls))%Q.
Proof.
  intros Hnd. induction ls as [|link ls IH]; intros Htargets.
  - apply Qsum_fmap_zero.
  - rewrite (Qsum_fmap_ext _
               (λ n, (if decide (link_target link = n) then val link else 0) +
                     Qsum (val <$> linksTo n ls))%Q).
    + rewrite Qsum_fmap_plus, Qsum_one_name, IH, fmap_cons, Qsum_cons.
      * reflexivity.
      * intros l Hl. apply Htargets. by right.
      * done.
      * apply Htargets. by left.
    + intros n _. unfold linksTo. rewrite filter_cons.
      destruct (decide (link_target link = n)).
      * rewrite fmap_cons, Qsum_cons. reflexivity.
      * ring.
Qed.

(** For a report of counts (every rpm and fpm that is present is a
    non-negative integer) whose totals stay within [2^53], so that every
    addition of the code is exact, the rpm (resp. fpm) of all nodes of the
    snapshot add up to the rpm (resp. fpm) of all its links: every link is
    counted at one node, its target. *)
Theorem saveSystemStats_totals (t : Z) (stats : SystemStatsInput) :
  let snapshot := (aggregate t stats).1 in
  (∀ d, d ∈ (aggregate t stats).2 → isCount (attr_rpm d) ∧ isCount (attr_fpm d)) →
  (Qsum (link_rpm <$> links snapshot) <= inject_Z (2 ^ 53))%Q →
  (Qsum (link_fpm <$> links snapshot) <= inject_Z (2 ^ 53))%Q →
  (Qsum (node_rpm <$> nodes snapshot) == Qsum (link_rpm <$> links snapshot))%Q ∧
  (Qsum (node_fpm <$> nodes snapshot) == Qsum (link_fpm <$> links snapshot))%Q.
Proof.
  intros snapshot _ _ _. subst snapshot. unfold aggregate. simpl.
  destruct (aggregate_accounted t stats) as (Hnd & Htargets & Hsums).
  set (st := foldl (systemStep t) (mkFold [] [] []) stats) in *.
  split.
  - rewrite <- (Qsum_by_target link_rpm (systems st).*1) by done.
    unfold nodesOf. rewrite <- !list_fmap_compose.
    apply Qsum_fmap_ext. intros [name info] Hin. simpl.
    apply (jsmap_elem_get _ _ _ Hnd) in Hin.
    destruct (Hsums _ _ Hin) as [-> _]. reflexivity.
  - rewrite <- (Qsum_by_target link_fpm (systems st).*1) by done.
    unfold nodesOf. rewrite <- !list_fmap_compose.
    apply Qsum_fmap_ext. intros [name info] Hin. simpl.
    apply (jsmap_elem_get _ _ _ Hnd) in Hin.
    destruct (Hsums _ _ Hin) as [_ ->]. reflexivity.
Qed.

Lemma saveSystemStats_totals_witness :
  (Qsum (node_rpm <$> nodes (aggregate 600 reportAB).1) ==
   Qsum (link_rpm <$> links (aggregate 600 reportAB).1))%Q ∧
  (Qsum (node_fpm <$> nodes (aggregate 600 reportAB).1) ==
   Qsum (link_fpm <$> links (aggregate 600 reportAB).1))%Q.
Proof.
  apply (saveSystemStats_totals 600 reportAB).
  - intros d Hd. apply list_elem_of_In in Hd. vm_compute in Hd.
    destruct Hd as [<-|[]]. split; intros q [= <-].
    + exists 10. split; [lia | reflexivity].
    + exists 1. split; [lia | reflexivity].
  - vm_compute. discriminate.
  - vm_compute. discriminate.
Defined.

(** ** Missing fields and zeros *)

Lemma orZero_idem (v : option Q) :
  (if Qeq_bool (orZero v) 0 then 0%Q else orZero v) = orZero v.
Proof.
  destruct v as [q|]; [|done]. simpl.
  destruct (Qeq_bool q 0) eqn:Hq; [done|]. by rewrite Hq.
Qed.

Lemma hostLoop_defaults t system target servers : ∀ st1 st2,
  targetSystem st1 = targetSystem st2 → rpm st1 = rpm st2 → fpm st1 = fpm st2 →
  let st1' := foldl (hostStep t system target) st1
                (serversWithDefaults servers) in
  let st2' := foldl (hostStep t system target) st2 servers in
  targetSystem st1' = targetSystem st2' ∧ rpm st1' = rpm st2' ∧ fpm st1' = fpm st2'.
Proof.
  induction servers as [|[host info] servers IH]; intros st1 st2 Hts Hr Hf; [done|].
  cbn [serversWithDefaults map foldl]. apply IH; simpl.
  - by rewrite !orZero_idem, Hts.
  - by rewrite orZero_idem, Hr.
  - by rewrite orZero_idem, Hf.
Qed.

Lemma targetLoop_defaults t system targets : ∀ st1 st2,
  systems st1 = systems st2 → fold_links st1 = fold_links st2 →
  let st1' := foldl (targetStep t system) st1 (targetsWithDefaults targets) in
  let st2' := foldl (targetStep t system) st2 targets in
  systems st1' = systems st2' ∧ fold_links st1' = fold_links st2'.
Proof.
  induction targets as [|[target servers] targets IH]; intros st1 st2 Hs Hl; [done|].
  cbn [targetsWithDefaults map foldl fst snd].
  assert (systems (targetStep t system st1 (target, serversWithDefaults servers)) =
          systems (targetStep t system st2 (target, servers)) ∧
          fold_links (targetStep t system st1 (target, serversWithDefaults servers)) =
          fold_links (targetStep t system st2 (target, servers))) as [Hs' Hl'].
  { unfold targetStep. rewrite Hs, Hl.
    set (ts0 := default emptySystemInfo _).
    destruct (hostLoop_defaults t system target servers
                (mkHostLoop ts0 0 0 (systemInfos st1))
                (mkHostLoop ts0 0 0 (systemInfos st2)))
      as (Hts & Hr & Hf); [done | done | done |].
    cbn zeta in Hts, Hr, Hf. simpl. by rewrite Hts, Hr, Hf. }
  by apply IH.
Qed.

Lemma systemLoop_defaults t stats : ∀ st1 st2,
  systems st1 = systems st2 → fold_links st1 = fold_links st2 →
  let st1' := foldl (systemStep t) st1 (reportWithDefaults stats) in
  let st2' := foldl (systemStep t) st2 stats in
  systems st1' = systems st2' ∧ fold_links st1' = fold_links st2'.
Proof.
  induction stats as [|[system targets] stats IH]; intros st1 st2 Hs Hl; [done|].
  cbn [reportWithDefaults map foldl fst snd].
  assert (systems (systemStep t st1 (system, targetsWithDefaults targets)) =
          systems (systemStep t st2 (system, targets)) ∧
          fold_links (systemStep t st1 (system, targetsWithDefaults targets)) =
          fold_links (systemStep t st2 (system, targets))) as [Hs' Hl'].
  { unfold systemStep. apply targetLoop_defaults; simpl; [by rewrite Hs | done]. }
  by apply IH.
Qed.

(** The snapshot does not tell a missing field from a zero: a report and
    the same report with [rpm || 0] and [fpm || 0] written into every leaf
    give the same snapshot. *)
Theorem saveSystemStats_defaults (t : Z) (stats : SystemStatsInput) :
  (aggregate t (reportWithDefaults stats)).1 = (aggregate t stats).1.
Proof.
  unfold aggregate. simpl.
  destruct (systemLoop_defaults t stats (mkFold [] [] []) (mkFold [] [] []))
    as [Hs Hl]; [done | done |].
  cbn zeta in Hs, Hl. by rewrite Hs, Hl.
Qed.

(** ** The samples that an average reads *)

Lemma calcDataAvg_loop_ext data1 data2 end_ (n : nat) : ∀ time sum count,
  end_ - time + 1 ≤ Z.of_nat n →
  (∀ k, 0 ≤ k → time + 60 * k ≤ end_ →
     data1 !! (time + 60 * k) = data2 !! (time + 60 * k)) →
  calcDataAvg_loop data1 end_ time sum count =
  calcDataAvg_loop data2 end_ time sum count.
Proof.
  induction n as [|n IH]; intros time sum count Hn Hsame.
  - simp calcDataAvg_loop. destruct (decide (time ≤ end_)); [lia | done].
  - simp calcDataAvg_loop. destruct (decide (time ≤ end_)); [|done]. simpl.
    pose proof (Hsame 0) as H0. rewrite Z.mul_0_r, Z.add_0_r in H0.
    rewrite H0 by lia.
    assert (Hnext : ∀ k, 0 ≤ k → time + 60 + 60 * k ≤ end_ →
              data1 !! (time + 60 + 60 * k) = data2 !! (time + 60 + 60 * k)).
    { intros k Hk Hle.
      replace (time + 60 + 60 * k) with (time + 60 * (k + 1)) by lia.
      apply Hsame; lia. }
    destruct (data2 !! time) as [v|]; simpl; apply IH; (lia || done).
Qed.

(** [calcDataAvg] reads a series only at the time stamps [begin],
    [begin + 60], ... up to [end]: two series that agree there have the same
    average, whatever they hold elsewhere. *)
Theorem calcDataAvg_grid_only (data1 data2 : gmap Z Q) (begin end_ : Z) :
  (∀ k, 0 ≤ k → begin + 60 * k ≤ end_ →
     data1 !! (begin + 60 * k) = data2 !! (begin + 60 * k)) →
  calcDataAvg data1 begin end_ = calcDataAvg data2 begin end_.
Proof.
  intros Hsame. unfold calcDataAvg.
  by rewrite (calcDataAvg_loop_ext data1 data2 end_
                (Z.to_nat (end_ - begin + 1))) by (lia || done).
Qed.

Lemma calcDataAvg_grid_only_witness :
  calcDataAvg seriesWithStray 0 60 = calcDataAvg (<[0 := 1%Q]> {[ 60 := 2%Q ]}) 0 60.
Proof.
  apply calcDataAvg_grid_only. intros k Hk Hle.
  unfold seriesWithStray. apply lookup_insert_ne. lia.
Defined.

(** ** The reads of [getSystemStats] *)

(** The second callback never throws. *)
Lemma onStats_resolved latest stats : ∃ dto, onStats latest stats = Resolved dto.
Proof.
  destruct stats as [|latestStats older].
  - by exists result.
  - destruct (onStats_reported latest latestStats older) as (ns & ls & -> & _).
    by eexists.
Qed.

Lemma run_getSystemStats {W : Type}
    (handle : ∀ c : Call, W → W * Outcome (Response c)) (w : W) :
  run handle getSystemStats w =
  match handle repo_getLatestStatsTime w with
  | (w1, Failed e) => (w1, [repo_getLatestStatsTime], Failed e)
  | (w1, Fulfilled None) => (w1, [repo_getLatestStatsTime], Fulfilled result)
  | (w1, Fulfilled (Some t)) =>
      match handle (repo_getSystemStats (t - 14 * 60) t) w1 with
      | (w2, Failed e) =>
          (w2, [repo_getLatestStatsTime; repo_getSystemStats (t - 14 * 60) t],
           Failed e)
      | (w2, Fulfilled stats) =>
          let '(w3, calls, o) := run handle (onStats t stats) w2 in
          (w3, repo_getLatestStatsTime ::
               repo_getSystemStats (t - 14 * 60) t :: calls, o)
      end
  end.
Proof.
  unfold getSystemStats. cbn [call andThen run].
  destruct (handle repo_getLatestStatsTime w) as [w1 [[t|]|e]]; [|done|done].
  cbn [andThen run].
  destruct (handle (repo_getSystemStats (t - 14 * 60) t) w1) as [w2 [stats|e]];
    [|done].
  by destruct (run handle (onStats t stats) w2) as [[w3 calls] o].
Qed.

(** A failure of either read is the failure of [getSystemStats], and no call
    follows the failed one; and [getSystemStats] fails in no other way: none
    of its own lookups can fail. *)
Theorem getSystemStats_failures {W : Type}
    (handle : ∀ c : Call, W → W * Outcome (Response c)) (w : W) :
  let r := run handle getSystemStats w in
  (∀ w1 e, handle repo_getLatestStatsTime w = (w1, Failed e) →
     r = (w1, [repo_getLatestStatsTime], Failed e)) ∧
  (∀ w1 t w2 e,
     handle repo_getLatestStatsTime w = (w1, Fulfilled (Some t)) →
     handle (repo_getSystemStats (t - 14 * 60) t) w1 = (w2, Failed e) →
     r = (w2, [repo_getLatestStatsTime; repo_getSystemStats (t - 14 * 60) t],
          Failed e)) ∧
  (∀ e, r.2 = Failed e →
     (∃ w1, handle repo_getLatestStatsTime w = (w1, Failed e)) ∨
     (∃ w1 t w2,
        handle repo_getLatestStatsTime w = (w1, Fulfilled (Some t)) ∧
        handle (repo_getSystemStats (t - 14 * 60) t) w1 = (w2, Failed e))).
Proof.
  intros r. subst r. rewrite run_getSystemStats. split; [|split].
  - by intros w1 e ->.
  - by intros w1 t w2 e -> ->.
  - intros e. destruct (handle repo_getLatestStatsTime w) as [w1 [[t|]|e1]] eqn:H1.
    + destruct (handle (repo_getSystemStats (t - 14 * 60) t) w1)
        as [w2 [stats|e2]] eqn:H2.
      * destruct (onStats_resolved t stats) as [dto ->]. done.
      * simpl. intros [= ->]. right. exists w1, t, w2. by rewrite H2.
    + done.
    + simpl. intros [= ->]. left. by exists w1.
Qed.

Lemma getSystemStats_failures_witness :
  run (scriptedRepository (Failed (StoreError "down")) (Fulfilled [])) getSystemStats () =
    ((), [repo_getLatestStatsTime], Failed (StoreError "down")) ∧
  run (scriptedRepository (Fulfilled (Some 600)) (Failed (StoreError "down")))
      getSystemStats () =
    ((), [repo_getLatestStatsTime; repo_getSystemStats (600 - 14 * 60) 600],
     Failed (StoreError "down")).
Proof.
  split.
  - apply (proj1 (getSystemStats_failures
                    (scriptedRepository (Failed (StoreError "down")) (Fulfilled []))
                    ())).
    reflexivity.
  - apply (proj1 (proj2 (getSystemStats_failures
                           (scriptedRepository (Fulfilled (Some 600))
                                               (Failed (StoreError "down")))
                           ())) () 600 ()); reflexivity.
Defined.

(** [getSystemStats] only reads: it asks for the latest time and, when the
    repository answers with a time [t], for the snapshots of the 14 minutes
    up to that [t], from [t - 840] to [t]; it makes no other call, and none
    at all after a latest time that is [null] or that fails. *)
Theorem getSystemStats_reads_only {W : Type}
    (handle : ∀ c : Call, W → W * Outcome (Response c)) (w : W) :
  (run handle getSystemStats w).1.2 =
  match handle repo_getLatestStatsTime w with
  | (_, Fulfilled (Some t)) =>
      [repo_getLatestStatsTime; repo_getSystemStats (t - 840) t]
  | _ => [repo_getLatestStatsTime]
  end.
Proof.
  rewrite run_getSystemStats.
  destruct (handle repo_getLatestStatsTime w) as [w1 [[t|]|e1]]; [|done|done].
  destruct (handle (repo_getSystemStats (t - 14 * 60) t) w1) as [w2 [stats|e2]];
    [|done].
  by destruct (onStats_resolved t stats) as [dto ->].
Qed.

(** ** The series of [getSystemStats] *)

Lemma recordSample_lookup key t r f (m : gmap string PropertyLookupMap) :
  recordSample key t r f m !! key =
  Some (alter (<[t := f]>) "fpm"
          (alter (<[t := r]>) "rpm"
             (default (<["rpm" := ∅]> (<["fpm" := ∅]> ∅)) (m !! key)))).
Proof.
  unfold recordSample. rewrite !lookup_alter_eq.
  destruct (m !! key) as [old|] eqn:Hkey; simpl.
  - by rewrite Hkey.
  - by rewrite lookup_insert_eq.
Qed.

(** What [recordSample] changes: the two samples of [key] at time [t]. *)
Lemma recordSample_sampleAt key t r f (m : gmap string PropertyLookupMap) k p τ :
  complete m →
  sampleAt (recordSample key t r f m) k p τ =
  if decide (key = k ∧ t = τ ∧ p = "rpm") then Some r
  else if decide (key = k ∧ t = τ ∧ p = "fpm") then Some f
  else sampleAt m k p τ.
Proof.
  intros Hm. unfold sampleAt. destruct (decide (key = k)) as [<-|Hne].
  2:{ rewrite recordSample_lookup_ne by done.
      rewrite !decide_False by tauto. done. }
  rewrite recordSample_lookup. simpl.
  assert (Hold : ∃ dr df,
            default (<["rpm" := ∅]> (<["fpm" := ∅]> ∅)) (m !! key) !! "rpm" = Some dr ∧
            default (<["rpm" := ∅]> (<["fpm" := ∅]> ∅)) (m !! key) !! "fpm" = Some df ∧
            (m !! key ≫= λ lookup, lookup !! "rpm" ≫= λ data, data !! τ) = dr !! τ ∧
            (m !! key ≫= λ lookup, lookup !! "fpm" ≫= λ data, data !! τ) = df !! τ ∧
            (p ≠ "rpm" → p ≠ "fpm" →
             default (<["rpm" := ∅]> (<["fpm" := ∅]> ∅)) (m !! key) !! p ≫= (λ data, data !! τ) =
             (m !! key ≫= λ lookup, lookup !! p ≫= λ data, data !! τ))).
  { destruct (m !! key) as [old|] eqn:Hkey; simpl.
    - destruct (Hm _ _ Hkey) as [[dr Hr] [df Hf]]. exists dr, df.
      rewrite Hr, Hf. done.
    - exists ∅, ∅. rewrite lookup_insert_eq, lookup_insert_ne, lookup_insert_eq by done.
      split_and!; try done.
      intros H1 H2. by rewrite !lookup_insert_ne, lookup_empty by done. }
  destruct Hold as (dr & df & Hr & Hf & Hsr & Hsf & Hother).
  destruct (decide (p = "rpm")) as [->|Hp1].
  - rewrite lookup_alter_ne, lookup_alter_eq, Hr by done. simpl. rewrite Hsr.
    destruct (decide (t = τ)) as [->|Hτ].
    + rewrite decide_True by done. apply lookup_insert_eq.
    + rewrite !decide_False by tauto. by apply lookup_insert_ne.
  - destruct (decide (p = "fpm")) as [->|Hp2].
    + rewrite lookup_alter_eq, lookup_alter_ne, Hf by done. simpl. rewrite Hsf.
      destruct (decide (t = τ)) as [->|Hτ].
      * rewrite decide_False by (intros (_ & _ & ?); done).
        rewrite decide_True by done. apply lookup_insert_eq.
      * rewrite !decide_False by tauto. by apply lookup_insert_ne.
    + rewrite !lookup_alter_ne by done. rewrite !decide_False by tauto.
      by apply Hother.
Qed.

Section RecordSamples.
Context {A : Type} (keyOf : A → string) (rpmOf fpmOf : A → Q) (t : Z).

Lemma recordSamples_untouched (l : list A) k p τ :
  ∀ m : gmap string PropertyLookupMap,
  complete m →
  τ ≠ t ∨ (∀ a, a ∈ l → keyOf a ≠ k) →
  sampleAt (foldl (λ m a, recordSample (keyOf a) t (rpmOf a) (fpmOf a) m) m l)
           k p τ = sampleAt m k p τ.
Proof.
  induction l as [|a l IH]; intros m Hm Hno; [done|].
  cbn [foldl]. rewrite IH.
  - rewrite recordSample_sampleAt by done.
    rewrite !decide_False; [done | |].
    + intros (Hk & Ht & _). destruct Hno as [?|Hno]; [done|].
      apply (Hno a); [by left | done].
    + intros (Hk & Ht & _). destruct Hno as [?|Hno]; [done|].
      apply (Hno a); [by left | done].
  - by apply recordSample_complete.
  - destruct Hno as [?|Hno]; [by left|]. right. intros b Hb. apply Hno. by right.
Qed.

(** The last sample recorded under a key is the one that stays. *)
Lemma recordSamples_last (l1 l2 : list A) (a : A) :
  ∀ m : gmap string PropertyLookupMap,
  complete m →
  (∀ b, b ∈ l2 → keyOf b ≠ keyOf a) →
  let m' := foldl (λ m a, recordSample (keyOf a) t (rpmOf a) (fpmOf a) m) m
                  (l1 ++ a :: l2) in
  sampleAt m' (keyOf a) "rpm" t = Some (rpmOf a) ∧
  sampleAt m' (keyOf a) "fpm" t = Some (fpmOf a).
Proof.
  intros m Hm Hl2. cbn zeta. rewrite foldl_app. cbn [foldl].
  set (m1 := foldl _ m l1).
  assert (Hm1 : complete m1).
  { by destruct (recordSamples_spec keyOf rpmOf fpmOf t l1 m Hm) as [? _]. }
  rewrite !recordSamples_untouched
    by (try (by apply recordSample_complete); by right).
  rewrite !recordSample_sampleAt by done.
  split.
  - by rewrite decide_True.
  - rewrite decide_False by (intros (_ & _ & ?); done). by rewrite decide_True.
Qed.
End RecordSamples.

Lemma NoDup_fmap_after {A B : Type} (f : A → B) (l1 l2 : list A) (a b : A) :
  NoDup (f <$> (l1 ++ a :: l2)%list) → b ∈ l2 → f b ≠ f a.
Proof.
  rewrite fmap_app, fmap_cons. intros [_ [_ Hnd]]%NoDup_app Hb Heq.
  apply NoDup_cons in Hnd as [Hnotin _]. apply Hnotin.
  rewrite <- Heq. by apply list_elem_of_fmap_2.
Qed.

Section Series.
Context {A : Type} (itemsOf : SystemStats → list A).
Context (keyOf : A → string) (rpmOf fpmOf : A → Q).

Local Abbreviation recordAll :=
  (λ (m : gmap string PropertyLookupMap) (stat : SystemStats),
     foldl (λ m a, recordSample (keyOf a) (time stat) (rpmOf a) (fpmOf a) m)
           m (itemsOf stat)).

Lemma series_complete (stats : list SystemStats) :
  ∀ m : gmap string PropertyLookupMap,
  complete m → complete (foldl recordAll m stats).
Proof.
  induction stats as [|s stats IH]; intros m Hm; [done|].
  cbn [foldl]. apply IH.
  by destruct (recordSamples_spec keyOf rpmOf fpmOf (time s) (itemsOf s) m Hm).
Qed.

Lemma series_untouched (stats : list SystemStats) k p τ :
  ∀ m : gmap string PropertyLookupMap,
  complete m →
  (∀ s, s ∈ stats → time s ≠ τ ∨ (∀ a, a ∈ itemsOf s → keyOf a ≠ k)) →
  sampleAt (foldl recordAll m stats) k p τ = sampleAt m k p τ.
Proof.
  induction stats as [|s stats IH]; intros m Hm Hno; [done|].
  cbn [foldl]. rewrite IH.
  - apply recordSamples_untouched; [done|].
    destruct (Hno s) as [?|?]; [by left | by left; congruence | by right].
  - by destruct (recordSamples_spec keyOf rpmOf fpmOf (time s) (itemsOf s) m Hm).
  - intros s' Hs'. apply Hno. by right.
Qed.

Lemma series_last (before after : list SystemStats) (s : SystemStats)
    (l1 l2 : list A) (a : A) :
  ∀ m : gmap string PropertyLookupMap,
  complete m →
  (∀ s', s' ∈ after → time s' ≠ time s) →
  itemsOf s = (l1 ++ a :: l2)%list →
  (∀ b, b ∈ l2 → keyOf b ≠ keyOf a) →
  let m' := foldl recordAll m (before ++ s :: after)%list in
  sampleAt m' (keyOf a) "rpm" (time s) = Some (rpmOf a) ∧
  sampleAt m' (keyOf a) "fpm" (time s) = Some (fpmOf a).
Proof.
  intros m Hm Hafter Hitems Hl2. cbn zeta. rewrite foldl_app. cbn [foldl].
  set (m1 := foldl _ m before).
  assert (Hm1 : complete m1) by by apply series_complete.
  assert (Hm2 : complete (recordAll m1 s)).
  { by destruct (recordSamples_spec keyOf rpmOf fpmOf (time s) (itemsOf s) m1 Hm1). }
  rewrite !series_untouched by (try done; intros s' Hs'; left; by apply Hafter).
  rewrite Hitems. by apply recordSamples_last.
Qed.
End Series.

Lemma addSnapshots_maps stats : ∀ maps,
  (foldl addSnapshot maps stats).1 =
    foldl (λ m stat,
             foldl (λ m node, recordSample (node_name node) (time stat)
                                (node_rpm node) (node_fpm node) m)
                   m (nodes stat)) maps.1 stats ∧
  (foldl addSnapshot maps stats).2 =
    foldl (λ m stat,
             foldl (λ m link,
                      recordSample (getLinkKey (link_source link) (link_target link))
                        (time stat) (link_rpm link) (link_fpm link) m)
                   m (links stat)) maps.2 stats.
Proof.
  induction stats as [|s stats IH]; intros maps; [done|].
  cbn [foldl]. by destruct (IH (addSnapshot maps s)) as [-> ->].
Qed.

(** The node series that the query builds from a window of snapshots with
    distinct times: a node of a snapshot (whose node names are distinct) has
    its rpm and fpm as the samples at the time of that snapshot; and where no
    snapshot of a time has a node of a name, the series of that name has no
    sample at that time. *)
Theorem getSystemStats_node_series (stats : list SystemStats) :
  NoDup (time <$> stats) →
  let nodeMap := (foldl addSnapshot (∅, ∅) stats).1 in
  (∀ s node, s ∈ stats → NoDup (node_name <$> nodes s) → node ∈ nodes s →
     sampleAt nodeMap (node_name node) "rpm" (time s) = Some (node_rpm node) ∧
     sampleAt nodeMap (node_name node) "fpm" (time s) = Some (node_fpm node)) ∧
  (∀ name p τ,
     (∀ s, s ∈ stats → time s = τ → name ∉ node_name <$> nodes s) →
     sampleAt nodeMap name p τ = None).
Proof.
  intros Htimes nodeMap. subst nodeMap.
  destruct (addSnapshots_maps stats (∅, ∅)) as [-> _]. simpl. split.
  - intros s node Hs Hnames Hnode.
    apply list_elem_of_split in Hs as (before & after & ->).
    apply list_elem_of_split in Hnode as (l1 & l2 & Hnodes).
    apply (series_last nodes node_name node_rpm node_fpm before after s l1 l2 node);
      [done | | done |].
    + intros s' Hs'. by apply (NoDup_fmap_after time before after s s').
    + intros b Hb. apply (NoDup_fmap_after node_name l1 l2 node b); [|done].
      by rewrite <- Hnodes.
  - intros name p τ Hno.
    rewrite (series_untouched nodes node_name node_rpm node_fpm); [done | done |].
    intros s Hs. destruct (decide (time s = τ)) as [Hτ|?]; [|by left].
    right. intros a Ha Hname. apply (Hno s Hs Hτ).
    rewrite <- Hname. by apply list_elem_of_fmap_2.
Qed.

Lemma getSystemStats_node_series_witness :
  sampleAt (foldl addSnapshot (∅, ∅) [snapshotAt60; snapshotAt0]).1
           "B" "rpm" 0 = Some 10%Q.
Proof.
  destruct (getSystemStats_node_series [snapshotAt60; snapshotAt0]) as [Hsome _].
  { apply NoDup_ListNoDup. repeat constructor; simpl; intuition discriminate. }
  apply (Hsome snapshotAt0 (mkNode "B" 10 1)).
  - right. by left.
  - apply NoDup_ListNoDup. repeat constructor; simpl; intuition discriminate.
  - right. by left.
Defined.

(** The link series that the query builds from a window of snapshots with
    distinct times: the last link of a snapshot under a link key has its rpm
    and fpm as the samples at the time of that snapshot, so that of two links
    of a snapshot with the same key the later one overwrites the earlier. *)
Theorem getSystemStats_link_series (stats : list SystemStats)
    (s : SystemStats) (l1 l2 : list LinkMetric) (link : LinkMetric) :
  NoDup (time <$> stats) →
  s ∈ stats →
  links s = (l1 ++ link :: l2)%list →
  (∀ b, b ∈ l2 →
     getLinkKey (link_source b) (link_target b) ≠
     getLinkKey (link_source link) (link_target link)) →
  let linkMap := (foldl addSnapshot (∅, ∅) stats).2 in
  let key := getLinkKey (link_source link) (link_target link) in
  sampleAt linkMap key "rpm" (time s) = Some (link_rpm link) ∧
  sampleAt linkMap key "fpm" (time s) = Some (link_fpm link).
Proof.
  intros Htimes Hs Hlinks Hlast linkMap key. subst linkMap key.
  destruct (addSnapshots_maps stats (∅, ∅)) as [_ ->]. simpl.
  apply list_elem_of_split in Hs as (before & after & ->).
  apply (series_last links
           (λ link, getLinkKey (link_source link) (link_target link))
           link_rpm link_fpm before after s l1 l2 link); [done | | done | done].
  intros s' Hs'. by apply (NoDup_fmap_after time before after s s').
Qed.

Lemma getSystemStats_link_series_witness :
  sampleAt (foldl addSnapshot (∅, ∅) [snapshotOfClash]).2
           (getLinkKey "a-b" "c") "rpm" 0 = Some 2%Q.
Proof.
  apply (getSystemStats_link_series [snapshotOfClash] snapshotOfClash
           [mkLink "a-b" "c" 1 0] [] (mkLink "a" "b-c" 2 0)).
  - apply NoDup_singleton.
  - by left.
  - reflexivity.
  - by intros b ?%elem_of_nil.
Defined.

(** ** The window that is fetched and the 15 minute horizon *)

Lemma calcDataAvg_skip (data : gmap Z Q) (begin end_ : Z) :
  begin ≤ end_ → data !! begin = None →
  calcDataAvg data begin end_ = calcDataAvg data (begin + 60) end_.
Proof.
  intros Hle Hnone. unfold calcDataAvg.
  rewrite (calcDataAvg_loop_equation_1 data end_ begin).
  destruct (decide (begin ≤ end_)); [|lia]. simpl. by rewrite Hnone.
Qed.

Lemma sampleAt_None_data (m : gmap string PropertyLookupMap) key p τ lookup data :
  sampleAt m key p τ = None → m !! key = Some lookup → lookup !! p = Some data →
  data !! τ = None.
Proof.
  unfold sampleAt. intros H Hk Hp. rewrite Hk in H. simpl in H.
  by rewrite Hp in H.
Qed.

(** When every snapshot of the window is at most 14 minutes older than the
    latest time, as the range that [getSystemStats] asks for has it, the 15
    minute average of a node and of a link is the average over those 14
    minutes: the time stamp 15 minutes back is scanned and never found. *)
Theorem getSystemStats_fifteen_minutes (stats : list SystemStats) (t : Z)
    (name source target property : string) :
  (∀ s, s ∈ stats → t - 14 * 60 ≤ time s) →
  let maps := foldl addSnapshot (∅, ∅) stats in
  calcNodeAvg maps.1 t name property 15 = calcNodeAvg maps.1 t name property 14 ∧
  calcLinkAvg maps.2 t source target property 15 =
    calcLinkAvg maps.2 t source target property 14.
Proof.
  intros Hwindow maps. subst maps.
  destruct (addSnapshots_maps stats (∅, ∅)) as [-> ->]. simpl.
  assert (Hstep : ∀ data : gmap Z Q, data !! (t - 15 * 60) = None →
            calcDataAvg data (t - 15 * 60) t = calcDataAvg data (t - 14 * 60) t).
  { intros data Hnone. rewrite calcDataAvg_skip by (lia || done).
    f_equal. lia. }
  split.
  - unfold calcNodeAvg.
    destruct (foldl _ ∅ stats !! name) as [lookup|] eqn:Hname; [|done]. simpl.
    destruct (lookup !! property) as [data|] eqn:Hprop; [|done]. simpl.
    f_equal. apply Hstep.
    eapply sampleAt_None_data; [|exact Hname|exact Hprop].
    rewrite (series_untouched nodes node_name node_rpm node_fpm); [done | done |].
    intros s Hs. left. specialize (Hwindow s Hs). lia.
  - unfold calcLinkAvg.
    destruct (foldl _ ∅ stats !! getLinkKey source target) as [lookup|] eqn:Hkey;
      [|done]. simpl.
    destruct (lookup !! property) as [data|] eqn:Hprop; [|done]. simpl.
    f_equal. apply Hstep.
    eapply sampleAt_None_data; [|exact Hkey|exact Hprop].
    rewrite (series_untouched links
               (λ link, getLinkKey (link_source link) (link_target link))
               link_rpm link_fpm); [done | done |].
    intros s Hs. left. specialize (Hwindow s Hs). lia.
Qed.

Lemma getSystemStats_fifteen_minutes_witness :
  calcNodeAvg (foldl addSnapshot (∅, ∅) [snapshotAt60; snapshotAt0]).1
              60 "B" "rpm" 15 =
  calcNodeAvg (foldl addSnapshot (∅, ∅) [snapshotAt60; snapshotAt0]).1
              60 "B" "rpm" 14.
Proof.
  apply (getSystemStats_fifteen_minutes [snapshotAt60; snapshotAt0] 60
           "B" "A" "B" "rpm").
  intros s [->|[->|[]%elem_of_nil]%elem_of_cons]%elem_of_cons; simpl; lia.
Defined.

(** ** A query on the snapshot of one report *)

Lemma toFixed3_proper (x y : Q) : (x == y)%Q → toFixed3 x = toFixed3 y.
Proof.
  intros Hxy. unfold toFixed3.
  assert (Qle_bool 0 x = Qle_bool 0 y) as -> by by rewrite Hxy.
  assert (Qle_bool (inject_Z (10 ^ 21)) (Qabs x) =
          Qle_bool (inject_Z (10 ^ 21)) (Qabs y)) as -> by by rewrite Hxy.
  assert (Qfloor (Qabs x * 1000 + (1 # 2)) = Qfloor (Qabs y * 1000 + (1 # 2)))
    as -> by by rewrite Hxy.
  apply Qred_complete.
  destruct (Qle_bool 0 y), (Qle_bool (inject_Z (10 ^ 21)) (Qabs y));
    rewrite ?Hxy; reflexivity.
Qed.

Lemma samples_single (data : gmap Z Q) (t : Z) (v : Q) (n : nat) :
  data !! t = Some v → (∀ τ, τ ≠ t → data !! τ = None) →
  samples data (visited (t - 60 * Z.of_nat n) (S n)) = [v].
Proof.
  intros Hsome Hnone. induction n as [|n IH].
  - replace (t - 60 * Z.of_nat 0) with t by lia.
    unfold samples. simpl. by rewrite Hsome.
  - cbn [visited] in *.
    replace (t - 60 * Z.of_nat (S n) + 60) with (t - 60 * Z.of_nat n) by lia.
    unfold samples in *. cbn [omap list_omap] in *.
    rewrite (Hnone (t - 60 * Z.of_nat (S n))) by lia. exact IH.
Qed.

(** The average of a series with one sample, at the end of the window. *)
Lemma calcDataAvg_single (data : gmap Z Q) (t minutes : Z) (v : Q) :
  0 ≤ minutes → data !! t = Some v → (∀ τ, τ ≠ t → data !! τ = None) →
  calcDataAvg data (t - minutes * 60) t = toFixed3 v.
Proof.
  intros Hm Hsome Hnone. rewrite calcDataAvg_horizon by done. cbn zeta.
  rewrite horizonTimes_visited by done.
  replace (Z.to_nat (minutes + 1)) with (S (Z.to_nat minutes)) by lia.
  replace (t - minutes * 60) with (t - 60 * Z.of_nat (Z.to_nat minutes)) by lia.
  rewrite (samples_single data t v) by done. simpl.
  apply toFixed3_proper. unfold Qsum. simpl. field.
Qed.

Lemma sampleAt_data (m : gmap string PropertyLookupMap) key p τ lookup data :
  m !! key = Some lookup → lookup !! p = Some data →
  sampleAt m key p τ = data !! τ.
Proof. unfold sampleAt. intros -> Hp. simpl. by rewrite Hp. Qed.

Lemma mapM_fmap_total {A B : Type} (f : A → option B) (g : A → B) (l : list A) :
  (∀ x, x ∈ l → f x = Some (g x)) → mapM f l = Some (g <$> l).
Proof.
  intros Hfg. apply mapM_Some_2. induction l as [|x l IH]; [constructor|].
  rewrite fmap_cons. constructor.
  - apply Hfg. by left.
  - apply IH. intros y Hy. apply Hfg. by right.
Qed.

(** The averages of the nodes of a window that holds one snapshot, taken at
    the latest time. *)
Lemma nodeEntry_single (s : SystemStats) (node : NodeMetric) :
  NoDup (node_name <$> nodes s) → node ∈ nodes s →
  nodeEntry (foldl addSnapshot (∅, ∅) [s]).1 (time s) node = Some (steadyEntry node).
Proof.
  intros Hnames Hnode.
  destruct (addSnapshots_spec [s] (∅, ∅)) as ([Hc _] & _ & _ & Hn & _);
    [done | done |].
  destruct (Hn s node) as [lookup Hlookup]; [by left | done |].
  destruct (Hc _ _ Hlookup) as [[dr Hdr] [df Hdf]].
  destruct (addSnapshots_maps [s] (∅, ∅)) as [Hmaps _].
  pose proof Hnode as (l1 & l2 & Hsplit)%list_elem_of_split.
  assert (sampleAt (foldl addSnapshot (∅, ∅) [s]).1 (node_name node) "rpm" (time s)
            = Some (node_rpm node) ∧
          sampleAt (foldl addSnapshot (∅, ∅) [s]).1 (node_name node) "fpm" (time s)
            = Some (node_fpm node)) as [Hr Hf].
  { rewrite Hmaps.
    apply (series_last nodes node_name node_rpm node_fpm [] [] s l1 l2 node ∅);
      [done | by intros ? ?%elem_of_nil | done |].
    intros b Hb. apply (NoDup_fmap_after node_name l1 l2 node b); [|done].
    by rewrite <- Hsplit. }
  assert (Hother : ∀ p τ, τ ≠ time s →
            sampleAt (foldl addSnapshot (∅, ∅) [s]).1 (node_name node) p τ = None).
  { intros p τ Hτ. rewrite Hmaps.
    rewrite (series_untouched nodes node_name node_rpm node_fpm); [done | done |].
    intros s' ->%list_elem_of_singleton. left. congruence. }
  rewrite (sampleAt_data _ _ _ _ _ _ Hlookup Hdr) in Hr.
  rewrite (sampleAt_data _ _ _ _ _ _ Hlookup Hdf) in Hf.
  assert (Hdr' : ∀ τ, τ ≠ time s → dr !! τ = None).
  { intros τ Hτ. rewrite <- (sampleAt_data _ _ _ τ _ _ Hlookup Hdr). by apply Hother. }
  assert (Hdf' : ∀ τ, τ ≠ time s → df !! τ = None).
  { intros τ Hτ. rewrite <- (sampleAt_data _ _ _ τ _ _ Hlookup Hdf). by apply Hother. }
  unfold nodeEntry, calcNodeAvg. rewrite Hlookup. simpl. rewrite Hdr, Hdf. simpl.
  rewrite !(calcDataAvg_single dr _ _ (node_rpm node)) by (lia || done).
  rewrite !(calcDataAvg_single df _ _ (node_fpm node)) by (lia || done).
  done.
Qed.

(** A query on a store that holds only the snapshot built from one report,
    taken at the latest time: every node of that snapshot is reported with
    its rpm and fpm and, as both averages of each, that value put through
    [toFixed(3)]. *)
Theorem getSystemStats_after_one_report {W : Type}
    (handle : ∀ c : Call, W → W * Outcome (Response c))
    (w w1 w2 : W) (t : Z) (stats : SystemStatsInput) :
  handle repo_getLatestStatsTime w = (w1, Fulfilled (Some t)) →
  handle (repo_getSystemStats (t - 14 * 60) t) w1 =
    (w2, Fulfilled [(aggregate t stats).1]) →
  ∃ ls,
    run handle getSystemStats w =
      (w2, [repo_getLatestStatsTime; repo_getSystemStats (t - 14 * 60) t],
       Fulfilled (mkDto t (steadyEntry <$> nodes (aggregate t stats).1) ls)).
Proof.
  intros Htime Hstats.
  set (s := (aggregate t stats).1) in *.
  assert (Hnames : NoDup (node_name <$> nodes s)).
  { subst s. unfold aggregate. simpl. rewrite nodesOf_names.
    by destruct (aggregate_accounted t stats) as [? _]. }
  destruct (onStats_reported t s []) as (ns & ls & Hon & _).
  assert (Hns : ns = steadyEntry <$> nodes s).
  { unfold onStats in Hon.
    destruct (foldl addSnapshot (∅, ∅) [s]) as [nodeMap linkMap] eqn:Hmaps.
    assert (Hm : mapM (nodeEntry nodeMap t) (nodes s) = Some (steadyEntry <$> nodes s)).
    { apply mapM_fmap_total. intros node Hnode.
      pose proof (nodeEntry_single s node Hnames Hnode) as H.
      rewrite Hmaps in H. exact H. }
    rewrite Hm in Hon. destruct (mapM (linkEntry linkMap t) (links s)); [|done].
    by injection Hon as <- _. }
  exists ls. rewrite run_getSystemStats, Htime, Hstats, Hon, Hns. done.
Qed.

Lemma getSystemStats_after_one_report_witness :
  ∃ ls,
    run memory getSystemStats (mkStore [snapshotAB] [detailAB] false false) =
      (mkStore [snapshotAB] [detailAB] false false,
       [repo_getLatestStatsTime; repo_getSystemStats (600 - 14 * 60) 600],
       Fulfilled (mkDto 600 (steadyEntry <$> nodes (aggregate 600 reportAB).1) ls)).
Proof.
  apply (getSystemStats_after_one_report memory
           (mkStore [snapshotAB] [detailAB] false false)
           (mkStore [snapshotAB] [detailAB] false false)
           (mkStore [snapshotAB] [detailAB] false false) 600 reportAB);
    reflexivity.
Defined.

(** ** Link keys as map keys *)

(** The link key tells two links apart whenever the two sources are free of
    the separator ["-"]: equal keys then mean equal sources and equal
    targets, whatever the targets contain. *)
Theorem getLinkKey_injective (source1 target1 source2 target2 : string) :
  contains separator source1 = false →
  contains separator source2 = false →
  getLinkKey source1 target1 = getLinkKey source2 target2 →
  source1 = source2 ∧ target1 = target2.
Proof. apply getLinkKey_inj. Qed.

Lemma getLinkKey_injective_witness :
  "web" = "web" ∧ "db-1" = "db-1".
Proof.
  apply (getLinkKey_injective "web" "db-1" "web" "db-1"); reflexivity.
Defined.

(** ** The latest sample of a reported node *)

Lemma horizonTimes_latest (t minutes : Z) :
  0 ≤ minutes → t ∈ horizonTimes t minutes.
Proof.
  intros Hm. unfold horizonTimes. apply list_elem_of_fmap.
  exists minutes. split; [lia|]. apply elem_of_seqZ. lia.
Qed.

Lemma calcDataAvg_loop_count (data : gmap Z Q) (t minutes : Z) :
  0 ≤ minutes →
  (calcDataAvg_loop data t (t - minutes * 60) 0 0).2 =
  Z.of_nat (length (samples data (horizonTimes t minutes))).
Proof.
  intros Hm. rewrite horizonTimes_visited by done.
  rewrite (calcDataAvg_loop_visited data t (Z.to_nat (minutes + 1))) by lia.
  by rewrite scan_samples.
Qed.

(** In a window of snapshots with distinct times whose first snapshot bears
    the latest time [t], a node of that snapshot (whose node names are
    distinct) has both its series in the node map, and for every horizon
    [minutes >= 0] the loop of [calcDataAvg] over [t - minutes * 60 .. t]
    counts at least one sample in each: the [count === 0] return of
    [calcDataAvg] is not taken for the averages of a reported node. *)
Theorem getSystemStats_latest_sample (latestStats : SystemStats)
    (older : list SystemStats) (node : NodeMetric) (t minutes : Z) :
  NoDup (time <$> latestStats :: older) →
  NoDup (node_name <$> nodes latestStats) →
  node ∈ nodes latestStats →
  time latestStats = t →
  0 ≤ minutes →
  let nodeMap := (foldl addSnapshot (∅, ∅) (latestStats :: older)).1 in
  ∃ lookup rpmData fpmData,
    nodeMap !! node_name node = Some lookup ∧
    lookup !! "rpm" = Some rpmData ∧
    lookup !! "fpm" = Some fpmData ∧
    calcNodeAvg nodeMap t (node_name node) "rpm" minutes =
      Some (calcDataAvg rpmData (t - minutes * 60) t) ∧
    calcNodeAvg nodeMap t (node_name node) "fpm" minutes =
      Some (calcDataAvg fpmData (t - minutes * 60) t) ∧
    0 < (calcDataAvg_loop rpmData t (t - minutes * 60) 0 0).2 ∧
    0 < (calcDataAvg_loop fpmData t (t - minutes * 60) 0 0).2.
Proof.
  intros Htimes Hnames Hnode Ht Hm nodeMap. subst nodeMap.
  destruct (addSnapshots_spec (latestStats :: older) (∅, ∅))
    as ([Hc _] & _ & _ & Hn & _); [done | done |].
  destruct (Hn latestStats node) as [lookup Hlookup]; [by left | done |].
  destruct (Hc _ _ Hlookup) as [[dr Hdr] [df Hdf]].
  exists lookup, dr, df. split; [done|]. split; [done|]. split; [done|].
  split; [by unfold calcNodeAvg; rewrite Hlookup; simpl; rewrite Hdr|].
  split; [by unfold calcNodeAvg; rewrite Hlookup; simpl; rewrite Hdf|].
  destruct (addSnapshots_maps (latestStats :: older) (∅, ∅)) as [Hmaps _].
  pose proof Hnode as (l1 & l2 & Hsplit)%list_elem_of_split.
  assert (sampleAt (foldl addSnapshot (∅, ∅) (latestStats :: older)).1
            (node_name node) "rpm" (time latestStats) = Some (node_rpm node) ∧
          sampleAt (foldl addSnapshot (∅, ∅) (latestStats :: older)).1
            (node_name node) "fpm" (time latestStats) = Some (node_fpm node))
    as [Hr Hf].
  { rewrite Hmaps.
    apply (series_last nodes node_name node_rpm node_fpm [] older latestStats
             l1 l2 node ∅); [done | | done |].
    - intros s' Hs'. by apply (NoDup_fmap_after time [] older latestStats s').
    - intros b Hb. apply (NoDup_fmap_after node_name l1 l2 node b); [|done].
      by rewrite <- Hsplit. }
  rewrite (sampleAt_data _ _ _ _ _ _ Hlookup Hdr) in Hr.
  rewrite (sampleAt_data _ _ _ _ _ _ Hlookup Hdf) in Hf.
  rewrite Ht in Hr, Hf. rewrite !calcDataAvg_loop_count by done.
  assert (Hpos : ∀ (data : gmap Z Q) v, data !! t = Some v →
            0 < Z.of_nat (length (samples data (horizonTimes t minutes)))).
  { intros data v Hv.
    assert (Hin : v ∈ samples data (horizonTimes t minutes)).
    { apply list_elem_of_omap. exists t. split; [by apply horizonTimes_latest | done]. }
    destruct (samples data (horizonTimes t minutes)); [by apply elem_of_nil in Hin|].
    simpl. lia. }
  split; eapply Hpos; eassumption.
Qed.

Lemma getSystemStats_latest_sample_witness :
  ∃ lookup rpmData fpmData,
    (foldl addSnapshot (∅, ∅) [snapshotAt60; snapshotAt0]).1 !! "B" = Some lookup ∧
    lookup !! "rpm" = Some rpmData ∧
    lookup !! "fpm" = Some fpmData ∧
    calcNodeAvg (foldl addSnapshot (∅, ∅) [snapshotAt60; snapshotAt0]).1
                60 "B" "rpm" 5 = Some (calcDataAvg rpmData (60 - 5 * 60) 60) ∧
    calcNodeAvg (foldl addSnapshot (∅, ∅) [snapshotAt60; snapshotAt0]).1
                60 "B" "fpm" 5 = Some (calcDataAvg fpmData (60 - 5 * 60) 60) ∧
    0 < (calcDataAvg_loop rpmData 60 (60 - 5 * 60) 0 0).2 ∧
    0 < (calcDataAvg_loop fpmData 60 (60 - 5 * 60) 0 0).2.
Proof.
  apply (getSystemStats_latest_sample snapshotAt60 [snapshotAt0]
           (mkNode "B" 20 1) 60 5).
  - apply NoDup_ListNoDup. repeat constructor; simpl; intuition discriminate.
  - apply NoDup_ListNoDup. repeat constructor; simpl; intuition discriminate.
  - right. by left.
  - reflexivity.
  - lia.
Defined.
